(** * Fiscal ledger engine of AbogadoGestor: shallow embedding and properties

    The development embeds the computational core of the application:
    - [validateSpanishID] (tax identifier validation, InvoiceManager),
    - [calculateNextNumber] (document numbering, InvoiceManager),
    - [calculations] and [quarterData] (tax model aggregation, TaxModels),
    - [handleSubmit], [handleBulkImport] and the delete handlers
      (the write paths of the invoice store, InvoiceManager),
    - [handleNifBlur], the number branch of [handleInputChange], the
      effect that proposes a number, [availableYears], [escapeCsv] and
      [formatDate] (the form and the export, InvoiceManager),
    - the headline totals and [monthlyData] (Dashboard), [stats] and
      [availableYears] (FiscalYearCloser) and the figures of
      [generateFiscalYearReport] (pdfGenerator),
    - [normalizeNumber], [normalizeDate] and the amounts of
      [mapRowToInvoice] (importService).

    Modelling conventions.
    - A JavaScript [number] holding an amount is a value of [num]: an exact
      rational, one of the two infinities, or NaN.  Finite arithmetic is
      exact: the rounding of binary64 is not modelled, and the literals
      [0.20] and [3005.06] stand for the rationals 1/5 and 300506/100.
    - A JavaScript string is a [string]; [toUpperCase] and [trim] act on the
      ASCII range.
    - A sequence number is a natural number of arbitrary size (binary64 is
      exact below 2^53).
    - [new Date (inv.date)] is carried by the record as a [JsDate]: either
      an invalid date, or the calendar year and month that [getFullYear] and
      [getMonth] report.
    - The clock ([new Date ()]) and the answers of [window.confirm] are
      explicit arguments, and so are the dates that the locale and the
      reader of sheets write.
    - A cell of an imported sheet is a [Cell]; what [getCol] finds for a
      column is an input of the model. *)

From Stdlib Require Import List String Ascii Bool ZArith NArith QArith Qabs.
From Stdlib Require Import Lia Lqa Setoid Morphisms Sorting.Sorted.
From Stdlib Require Import DecimalString DecimalN DecimalPos DecimalFacts.
From AAC_tactics Require Import AAC.
Import ListNotations.

Local Open Scope string_scope.

(** ** JavaScript numbers *)

Module JsNum.

Inductive num : Type :=
| Fin (q : Q)
| PInf
| NInf
| NaN.

Definition zero : num := Fin 0.

(** [a + b] *)
Definition add (a b : num) : num :=
  match a, b with
  | NaN, _ | _, NaN => NaN
  | Fin p, Fin q => Fin (p + q)
  | PInf, NInf | NInf, PInf => NaN
  | PInf, _ | _, PInf => PInf
  | NInf, _ | _, NInf => NInf
  end.

(** unary minus *)
Definition neg (a : num) : num :=
  match a with
  | Fin p => Fin (- p)
  | PInf => NInf
  | NInf => PInf
  | NaN => NaN
  end.

(** [a - b] *)
Definition sub (a b : num) : num := add a (neg b).

Definition Qlt_bool (p q : Q) : bool := negb (Qle_bool q p).

(** sign of a finite value: [Lt], [Eq] or [Gt] against zero *)
Definition Qsign (p : Q) : comparison := (0 ?= p)%Q.

(** [a * b] *)
Definition mul (a b : num) : num :=
  match a, b with
  | NaN, _ | _, NaN => NaN
  | Fin p, Fin q => Fin (p * q)
  | Fin p, PInf | PInf, Fin p =>
      match Qsign p with Lt => PInf | Eq => NaN | Gt => NInf end
  | Fin p, NInf | NInf, Fin p =>
      match Qsign p with Lt => NInf | Eq => NaN | Gt => PInf end
  | PInf, PInf | NInf, NInf => PInf
  | PInf, NInf | NInf, PInf => NInf
  end.

(** [a > b]; every comparison with NaN is false *)
Definition gt (a b : num) : bool :=
  match a, b with
  | NaN, _ | _, NaN => false
  | Fin p, Fin q => Qlt_bool q p
  | PInf, PInf => false
  | PInf, _ => true
  | _, PInf => false
  | NInf, _ => false
  | Fin _, NInf => true
  end.

(** [a < b] *)
Definition lt (a b : num) : bool := gt b a.

(** [Math.abs a] *)
Definition abs (a : num) : num :=
  match a with
  | Fin p => Fin (Qabs p)
  | PInf | NInf => PInf
  | NaN => NaN
  end.

(** [Number.isFinite a] *)
Definition isFinite (a : num) : bool :=
  match a with Fin _ => true | _ => false end.

(** [String(a) === String(b)]: the key a number selects in an object *)
Definition sameKey (a b : num) : bool :=
  match a, b with
  | Fin p, Fin q => Qeq_bool p q
  | PInf, PInf | NInf, NInf | NaN, NaN => true
  | _, _ => false
  end.

(** Two numbers denote the same value. *)
Definition num_eq (a b : num) : Prop :=
  match a, b with
  | Fin p, Fin q => (p == q)%Q
  | PInf, PInf | NInf, NInf | NaN, NaN => True
  | _, _ => False
  end.

(** [a <= b] as a proposition, on finite values only *)
Definition num_le (a b : num) : Prop :=
  match a, b with
  | Fin p, Fin q => (p <= q)%Q
  | _, _ => False
  end.

(** The literals of the source. *)
Definition lit_0_20 : num := Fin (1 # 5).
Definition lit_3005_06 : num := Fin (300506 # 100).

End JsNum.

Export JsNum.

Declare Scope num_scope.
Delimit Scope num_scope with num.
Bind Scope num_scope with num.
Infix "+" := add : num_scope.
Infix "-" := sub : num_scope.
Infix "*" := mul : num_scope.
Infix "===" := num_eq (at level 70, no associativity) : num_scope.

(** ** JavaScript strings (ASCII range) *)

Module JsString.

Definition isDigit (c : ascii) : bool :=
  let n := nat_of_ascii c in (48 <=? n)%nat && (n <=? 57)%nat.

Definition isUpper (c : ascii) : bool :=
  let n := nat_of_ascii c in (65 <=? n)%nat && (n <=? 90)%nat.

Definition isLower (c : ascii) : bool :=
  let n := nat_of_ascii c in (97 <=? n)%nat && (n <=? 122)%nat.

(** white space removed by [trim]: TAB, LF, VT, FF, CR and SPACE *)
Definition isSpace (c : ascii) : bool :=
  let n := nat_of_ascii c in
  ((9 <=? n)%nat && (n <=? 13)%nat) || (n =? 32)%nat.

Definition upperChar (c : ascii) : ascii :=
  if isLower c then ascii_of_nat (nat_of_ascii c - 32) else c.

(** [s.toUpperCase ()] *)
Fixpoint toUpperCase (s : string) : string :=
  match s with
  | EmptyString => EmptyString
  | String c r => String (upperChar c) (toUpperCase r)
  end.

Fixpoint trimStart (s : string) : string :=
  match s with
  | EmptyString => EmptyString
  | String c r => if isSpace c then trimStart r else s
  end.

Fixpoint allSpace (s : string) : bool :=
  match s with
  | EmptyString => true
  | String c r => isSpace c && allSpace r
  end.

Fixpoint trimEnd (s : string) : string :=
  match s with
  | EmptyString => EmptyString
  | String c r => if allSpace s then EmptyString else String c (trimEnd r)
  end.

(** [s.trim ()] *)
Definition trim (s : string) : string := trimEnd (trimStart s).

(** [s.charAt (n)]: a string of one character, empty out of range *)
Definition charAt (n : nat) (s : string) : string :=
  match String.get n s with
  | Some c => String c EmptyString
  | None => EmptyString
  end.

(** [s.substr (start, len)] for [start] within the string *)
Definition substr (start len : nat) (s : string) : string :=
  String.substring start len s.

(** [s.slice (-2)]: the last two characters (the whole string when it is
    shorter) *)
Definition sliceLast2 (s : string) : string :=
  String.substring (String.length s - 2) 2 s.

(** [!s] is false: the string is not empty *)
Definition truthy (s : string) : bool :=
  match s with EmptyString => false | _ => true end.

Definition digitValue (c : ascii) : N := N.of_nat (nat_of_ascii c - 48).

(** The digits at the head of [s], accumulated in base ten; the boolean
    records whether one digit at least was read. *)
Fixpoint parseDigits (s : string) (acc : N) (seen : bool) : N * bool :=
  match s with
  | EmptyString => (acc, seen)
  | String c r =>
      if isDigit c then parseDigits r (10 * acc + digitValue c)%N true
      else (acc, seen)
  end.

(** [parseInt (s, 10)] for a string without sign or leading white space;
    [None] is NaN. *)
Definition parseInt (s : string) : option N :=
  let (n, seen) := parseDigits s 0%N false in
  if seen then Some n else None.

(** The number that a string of decimal digits denotes. *)
Fixpoint decimalValueFrom (acc : N) (s : string) : N :=
match s with
| EmptyString => acc
| String c r => decimalValueFrom (10 * acc + digitValue c)%N r
end.

Definition decimalValue (s : string) : N := decimalValueFrom 0%N s.

(** [n.toString ()] and the template [`${n}`] for a natural number *)
Definition toString (n : N) : string :=
  NilEmpty.string_of_uint (N.to_uint n).

Fixpoint allDigits (s : string) : bool :=
  match s with
  | EmptyString => true
  | String c r => isDigit c && allDigits r
  end.

(** [s.startsWith (p)] returning what follows [p] *)
Fixpoint stripPrefix (p s : string) : option string :=
  match p, s with
  | EmptyString, _ => Some s
  | String a p', String b s' =>
      if Ascii.eqb a b then stripPrefix p' s' else None
  | String _ _, EmptyString => None
  end.

(** An anchored pattern of fixed width: one character class per
    position. *)
Fixpoint matchClasses (cs : list (ascii -> bool)) (s : string) : bool :=
  match cs, s with
  | [], EmptyString => true
  | c :: cs', String a s' => c a && matchClasses cs' s'
  | _, _ => false
  end.

Fixpoint inString (c : ascii) (set : string) : bool :=
  match set with
  | EmptyString => false
  | String a r => Ascii.eqb c a || inString c r
  end.

End JsString.

Export JsString.

(** ** The record shape (types.ts) *)

Inductive InvoiceType : Type :=
| INCOME
| EXPENSE.

Definition InvoiceType_eqb (a b : InvoiceType) : bool :=
  match a, b with
  | INCOME, INCOME | EXPENSE, EXPENSE => true
  | _, _ => false
  end.

Inductive Month : Type :=
| Jan | Feb | Mar | Apr | May | Jun | Jul | Aug | Sep | Oct | Nov | Dec.

(** What [getMonth] returns: months are numbered from zero. *)
Definition monthIndex (m : Month) : Z :=
  match m with
  | Jan => 0 | Feb => 1 | Mar => 2 | Apr => 3 | May => 4 | Jun => 5
  | Jul => 6 | Aug => 7 | Sep => 8 | Oct => 9 | Nov => 10 | Dec => 11
  end.

(** The value of [new Date (inv.date)]. *)
Inductive JsDate : Type :=
| InvalidDate
| ValidDate (year : Z) (month : Month).

(** [d.getFullYear ()]; [None] is NaN *)
Definition getFullYear (d : JsDate) : option Z :=
  match d with
  | InvalidDate => None
  | ValidDate y _ => Some y
  end.

(** [d.getMonth ()]; [None] is NaN *)
Definition getMonth (d : JsDate) : option Z :=
  match d with
  | InvalidDate => None
  | ValidDate _ m => Some (monthIndex m)
  end.

(** The fields of [Invoice] the engine reads.  [deductible] is optional in
    the source: [None] is [undefined]. *)
Record Invoice : Type := mkInvoice {
  id : string;
  number : string;
  date : JsDate;
  type : InvoiceType;
  nif : string;
  entityName : string;
  baseAmount : num;
  ivaRate : num;
  ivaAmount : num;
  irpfRate : num;
  irpfAmount : num;
  totalAmount : num;
  deductible : option bool
}.

(** Truth value of [i.deductible] in a condition. *)
Definition isDeductible (i : Invoice) : bool :=
  match deductible i with
  | Some b => b
  | None => false
  end.

(** [arr.reduce ((sum, i) => sum + f (i), 0)] *)
Definition sumBy {A : Type} (f : A -> num) (l : list A) : num :=
  fold_left (fun sum i => (sum + f i)%num) l zero.

(** The same sum written by recursion on the list. *)
Fixpoint total {A : Type} (f : A -> num) (l : list A) : num :=
  match l with
  | [] => zero
  | i :: r => (f i + total f r)%num
  end.

(** ** Tax identifier validation (InvoiceManager, [validateSpanishID]) *)

Module TaxId.

Definition validChars : string := "TRWAGMYFPDXBNJZSQVHLCKE".

(** [/^[0-9]{8}[A-Z]$/] *)
Definition nifRegex : string -> bool :=
  matchClasses (repeat isDigit 8 ++ [isUpper]).

(** [/^[XYZ][0-9]{7}[A-Z]$/] *)
Definition nieRegex : string -> bool :=
  matchClasses ([fun c => inString c "XYZ"] ++ repeat isDigit 7 ++ [isUpper]).

(** [/^[ABCDEFGHJKLMNPQRSUVW][0-9]{7}[0-9A-J]$/] *)
Definition cifRegex : string -> bool :=
  matchClasses ([fun c => inString c "ABCDEFGHJKLMNPQRSUVW"]
                  ++ repeat isDigit 7
                  ++ [fun c => isDigit c || inString c "ABCDEFGHIJ"]).

(** [validChars.charAt (number % 23)]; a NaN index reads position 0. *)
Definition expectedLetterOf (number : option N) : string :=
  match number with
  | Some n => charAt (N.to_nat (n mod 23)) validChars
  | None => charAt 0 validChars
  end.

Definition nifMessage (expectedLetter : string) : string :=
  "NIF incorrecto: La letra debería ser " ++ expectedLetter.

Definition nieMessage (expectedLetter : string) : string :=
  "NIE incorrecto: La letra debería ser " ++ expectedLetter.

Definition formatMessage : string :=
  "Formato español inválido. Esperado: DNI, CIF o NIE".

(** The string upper-cased and trimmed, as the function classifies it. *)
Definition normalize (value : string) : string :=
  trim (toUpperCase value).

(** The result is the error message, [None] being [null]: no error. *)
Definition validateSpanishID (value : string) : option string :=
  if negb (truthy value) then None
  else
    let str := normalize value in
    if nifRegex str then
      let number := parseInt (substr 0 8 str) in
      let letter := charAt 8 str in
      let expectedLetter := expectedLetterOf number in
      if negb (String.eqb letter expectedLetter)
      then Some (nifMessage expectedLetter)
      else None
    else if nieRegex str then
      let prefix := charAt 0 str in
      let numberStr := substr 1 7 str in
      let numberStr := if String.eqb prefix "X" then "0" ++ numberStr else numberStr in
      let numberStr := if String.eqb prefix "Y" then "1" ++ numberStr else numberStr in
      let numberStr := if String.eqb prefix "Z" then "2" ++ numberStr else numberStr in
      let number := parseInt numberStr in
      let letter := charAt 8 str in
      let expectedLetter := expectedLetterOf number in
      if negb (String.eqb letter expectedLetter)
      then Some (nieMessage expectedLetter)
      else None
    else if cifRegex str then None
    else Some formatMessage.

(** The three outcomes of the contract, read off the returned message. *)
Inductive ValidationResult : Type :=
| Valid
| InvalidChecksum (expectedLetter : string)
| UnrecognizedFormat.

Definition validate (identifier : string) : ValidationResult :=
  match validateSpanishID identifier with
  | None => Valid
  | Some msg =>
      match stripPrefix "NIF incorrecto: La letra debería ser " msg with
      | Some l => InvalidChecksum l
      | None =>
          match stripPrefix "NIE incorrecto: La letra debería ser " msg with
          | Some l => InvalidChecksum l
          | None => UnrecognizedFormat
          end
      end
  end.

End TaxId.

(** ** Document numbering (InvoiceManager, [calculateNextNumber]) *)

Module Sequencer.

Definition prefixOf (type : InvoiceType) : string :=
  match type with
  | INCOME => "A"
  | EXPENSE => "R"
  end.

(** [yearFull.toString ().slice (-2)] *)
Definition yearShortOf (yearFull : N) : string :=
  sliceLast2 (toString yearFull).

(** [s.match (new RegExp (`^${prefix}-${yearShort}-(\\d+)$`))]: the
    captured group on a match.  The prefix and the year hold no character
    with a meaning in a pattern, so they match themselves. *)
Definition matchNumber (prefix yearShort s : string) : option string :=
  match stripPrefix (prefix ++ "-" ++ yearShort ++ "-") s with
  | Some rest =>
      if truthy rest && allDigits rest then Some rest else None
  | None => None
  end.

(** [regex.test (s)] *)
Definition testNumber (prefix yearShort s : string) : bool :=
  match matchNumber prefix yearShort s with
  | Some _ => true
  | None => false
  end.

(** The callback of the [reduce] that finds the largest sequence number. *)
Definition maxStep (prefix yearShort : string) (max : N) (inv : Invoice) : N :=
  match matchNumber prefix yearShort (number inv) with
  | Some g =>
      match parseInt g with
      | Some num => N.max max num
      | None => max
      end
  | None => max
  end.

Definition relevantInvoices (invoices : list Invoice) (yearFull : N)
  (ty : InvoiceType) : list Invoice :=
  filter (fun i => InvoiceType_eqb (type i) ty
                   && testNumber (prefixOf ty) (yearShortOf yearFull) (number i))
         invoices.

Definition maxSeq (invoices : list Invoice) (yearFull : N)
  (ty : InvoiceType) : N :=
  fold_left (maxStep (prefixOf ty) (yearShortOf yearFull))
            (relevantInvoices invoices yearFull ty) 0%N.

(** [`${prefix}-${yearShort}-${n}`] *)
Definition formatNumber (ty : InvoiceType) (yearFull n : N) : string :=
  prefixOf ty ++ "-" ++ yearShortOf yearFull ++ "-" ++ toString n.

(** [yearFull] is [new Date ().getFullYear ()]. *)
Definition calculateNextNumber (invoices : list Invoice) (yearFull : N)
  (ty : InvoiceType) : string :=
  let nextSeq := (maxSeq invoices yearFull ty + 1)%N in
  formatNumber ty yearFull nextSeq.

(** The vocabulary of the specification: a record is relevant when it has
    the requested type and its number matches the pattern of the year; its
    suffix is the number captured by the pattern. *)
Definition isRelevant (yearFull : N) (ty : InvoiceType) (i : Invoice) : bool :=
  InvoiceType_eqb (type i) ty
  && testNumber (prefixOf ty) (yearShortOf yearFull) (number i).

Definition suffixOf (yearFull : N) (ty : InvoiceType) (i : Invoice) : N :=
  if InvoiceType_eqb (type i) ty then
    match matchNumber (prefixOf ty) (yearShortOf yearFull) (number i) with
    | Some g => decimalValue g
    | None => 0%N
    end
  else 0%N.

(** The largest suffix among the relevant records, zero when there is
    none. *)
Fixpoint maxSuffix (yearFull : N) (ty : InvoiceType) (l : list Invoice) : N :=
  match l with
  | [] => 0%N
  | i :: r => N.max (suffixOf yearFull ty i) (maxSuffix yearFull ty r)
  end.

End Sequencer.

(** ** Objects used as maps

    An object built by a [reduce] is a list of its own properties in the
    order of their creation.  [Object.entries] is that list: the keys that
    are array indices, which JavaScript enumerates first, are not moved, and
    no property below depends on the order of an enumeration that is not
    sorted afterwards. *)

Module JsObject.

Section Obj.
Context {K V : Type} (same : K -> K -> bool).

(** [acc[k]] on an own property *)
Fixpoint objGet (k : K) (acc : list (K * V)) : option V :=
  match acc with
  | [] => None
  | (k', v) :: r => if same k' k then Some v else objGet k r
  end.

(** [acc[k] = v] for a key the object does not hold yet *)
Definition objAdd (k : K) (v : V) (acc : list (K * V)) : list (K * V) :=
  acc ++ [(k, v)].

(** An update in place of the value under [k]. *)
Fixpoint objUpdate (k : K) (f : V -> V) (acc : list (K * V)) : list (K * V) :=
  match acc with
  | [] => []
  | (k', v) :: r =>
      if same k' k then (k', f v) :: r else (k', v) :: objUpdate k f r
  end.

(** The effect of one callback of a grouping [reduce]: the value under the
    first key that is the same as [k] is updated, and a key that the object
    does not hold is added with the update of its initial value. *)
Fixpoint upsert (k : K) (v0 : V) (f : V -> V) (acc : list (K * V))
  : list (K * V) :=
  match acc with
  | [] => [(k, f v0)]
  | (k', v) :: r =>
      if same k' k then (k', f v) :: r else (k', v) :: upsert k v0 f r
  end.

End Obj.

(** The members every object inherits from [Object.prototype]: under one
    of these names [acc[k]] is never undefined. *)
Definition objectPrototypeKeys : list string :=
  [ "__proto__"; "constructor"; "hasOwnProperty"; "isPrototypeOf";
    "propertyIsEnumerable"; "toLocaleString"; "toString"; "valueOf";
    "__defineGetter__"; "__defineSetter__";
    "__lookupGetter__"; "__lookupSetter__" ].

Definition inheritedKey (k : string) : bool :=
  existsb (String.eqb k) objectPrototypeKeys.

End JsObject.

Export JsObject.

(** ** The shape of a grouping [reduce] *)

Section Grouping.

Context {X K V : Type}.
Variable same : K -> K -> bool.
Variable key : X -> K.
Variable init : X -> V.
Variable upd : X -> V -> V.

(** The shape shared by the callbacks that group records. *)
Definition gstep (acc : list (K * V)) (x : X) : list (K * V) :=
  objUpdate same (key x) (upd x)
    (match objGet same (key x) acc with
     | None => objAdd (key x) (init x) acc
     | Some _ => acc
     end).

(** The value of the group that [x0] opens once the records [xs] have been
    added to it. *)
Definition groupValue (x0 : X) (xs : list X) : V :=
  fold_left (fun v x => upd x v) xs (init x0).

Definition sameAs (k : K) (x : X) : bool := same k (key x).

Definition distinctKeys (acc : list (K * V)) : Prop :=
  ForallOrdPairs (fun a b => same (fst a) (fst b) = false) acc.

Definition groups (l : list X) : list (K * V) := fold_left gstep l [].

End Grouping.

(** ** Tax models (TaxModels, [calculations] and [generatePDFReport]) *)

Module TaxModels.

(** [new Date (inv.date).getFullYear () === currentYear] *)
Definition inYear (currentYear : Z) (inv : Invoice) : bool :=
  match getFullYear (date inv) with
  | Some y => (y =? currentYear)%Z
  | None => false
  end.

Definition isIncome (i : Invoice) : bool := InvoiceType_eqb (type i) INCOME.

Definition isDeductibleExpense (i : Invoice) : bool :=
  InvoiceType_eqb (type i) EXPENSE && isDeductible i.

Record Desglose : Type := mkDesglose { base : num; quota : num }.

Record DesgloseItem : Type :=
  mkDesgloseItem { rate : num; item_base : num; item_quota : num }.

Record Op347 : Type :=
  mkOp347 { op_name : string; op_total : num; op_type : InvoiceType }.

Record Item347 : Type :=
  mkItem347 { i347_nif : string; i347_name : string;
              i347_total : num; i347_type : InvoiceType }.

Record Item190 : Type :=
  mkItem190 { i190_name : string; i190_nif : string;
              i190_base : num; i190_retention : num }.

(** The callback that builds [desgloseSoportado]. *)
Definition desgloseStep (acc : list (num * Desglose)) (inv : Invoice)
  : list (num * Desglose) :=
  let rate := ivaRate inv in
  let acc :=
    match objGet sameKey rate acc with
    | None => objAdd rate (mkDesglose zero zero) acc
    | Some _ => acc
    end in
  objUpdate sameKey rate
    (fun d => mkDesglose (base d + baseAmount inv) (quota d + ivaAmount inv))
    acc.

(** A stable sort by insertion: [x] is placed before the first [y] of the
    sorted list that the comparator puts after it, which is when
    [cmp (y, x)] is above zero; on a result that is zero, negative or NaN,
    [x] stays behind [y]. *)
Fixpoint insertBy {A : Type} (cmp : A -> A -> num) (x : A) (l : list A)
  : list A :=
  match l with
  | [] => [x]
  | y :: r => if gt (cmp y x) zero then x :: y :: r
              else y :: insertBy cmp x r
  end.

(** [arr.sort (cmp)].  The sort is stable: elements that a consistent
    comparator does not separate keep the order of the input.  When the
    comparator returns NaN for some pair JavaScript leaves the order to the
    implementation, and the model takes the order of this insertion. *)
Definition sortBy {A : Type} (cmp : A -> A -> num) (l : list A) : list A :=
  fold_left (fun sorted x => insertBy cmp x sorted) l [].

(** The comparator [(a, b) => b.r - a.r]. *)
Definition byDescending {A : Type} (r : A -> num) : A -> A -> num :=
  fun a b => (r b - r a)%num.

(** No element of the list is followed by one with a larger [r]. *)
Definition descending {A : Type} (r : A -> num) (l : list A) : Prop :=
  ForallOrdPairs (fun a b => gt (r b) (r a) = false) l.

(** The callback that builds [operationsByNif].  Under an inherited name
    [acc[curr.nif]] is the inherited member: no property is created and
    the addition lands on that member, outside the object. *)
Definition operationsStep (acc : list (string * Op347)) (curr : Invoice)
  : list (string * Op347) :=
  if inheritedKey (nif curr) then acc
  else
    let acc :=
      match objGet String.eqb (nif curr) acc with
      | None => objAdd (nif curr) (mkOp347 (entityName curr) zero (type curr)) acc
      | Some _ => acc
      end in
    objUpdate String.eqb (nif curr)
      (fun d => mkOp347 (op_name d) (op_total d + abs (totalAmount curr))
                        (op_type d))
      acc.

(** The callback that builds [model190Map]. *)
Definition model190Step (acc : list (string * Item190)) (curr : Invoice)
  : list (string * Item190) :=
  if inheritedKey (nif curr) then acc
  else
    let acc :=
      match objGet String.eqb (nif curr) acc with
      | None => objAdd (nif curr)
                       (mkItem190 (entityName curr) (nif curr) zero zero) acc
      | Some _ => acc
      end in
    objUpdate String.eqb (nif curr)
      (fun d => mkItem190 (i190_name d) (i190_nif d)
                          (i190_base d + baseAmount curr)
                          (i190_retention d + irpfAmount curr))
      acc.

Record Calculations : Type := mkCalculations {
  ivaDevengado : num;
  baseDevengado : num;
  ivaSoportado : num;
  baseSoportado : num;
  listadoDesgloseSoportado : list DesgloseItem;
  result303 : num;
  totalIngresos : num;
  totalGastos : num;
  rendimientoNeto : num;
  pagoTeorico : num;
  retencionesSoportadas : num;
  resultadoIrpfAnual : num;
  retencionesPracticadas : num;
  model347List : list Item347;
  model190List : list Item190
}.

Definition yearInvoicesOf (invoices : list Invoice) (currentYear : Z)
  : list Invoice :=
  filter (inYear currentYear) invoices.

Definition desgloseSoportadoOf (expenses : list Invoice)
  : list (num * Desglose) :=
  fold_left desgloseStep expenses [].

Definition operationsByNifOf (yearInvoices : list Invoice)
  : list (string * Op347) :=
  fold_left operationsStep yearInvoices [].

(** The body of the [useMemo] that computes the annual figures. *)
Definition calculations (invoices : list Invoice) (currentYear : Z)
  : Calculations :=
  let yearInvoices := yearInvoicesOf invoices currentYear in
  let incomes := filter isIncome yearInvoices in
  let expenses := filter isDeductibleExpense yearInvoices in
  let ivaDevengado := sumBy ivaAmount incomes in
  let baseDevengado := sumBy baseAmount incomes in
  let ivaSoportado := sumBy ivaAmount expenses in
  let baseSoportado := sumBy baseAmount expenses in
  let result303 := (ivaDevengado - ivaSoportado)%num in
  let desgloseSoportado := desgloseSoportadoOf expenses in
  let listadoDesgloseSoportado :=
    sortBy (fun a b => (rate b - rate a)%num)
           (map (fun e => mkDesgloseItem (fst e) (base (snd e)) (quota (snd e)))
                desgloseSoportado) in
  let totalIngresos := sumBy baseAmount incomes in
  let totalGastos := sumBy baseAmount expenses in
  let rendimientoNeto := (totalIngresos - totalGastos)%num in
  let pagoTeorico :=
    if gt rendimientoNeto zero then (rendimientoNeto * lit_0_20)%num else zero in
  let retencionesSoportadas := sumBy irpfAmount incomes in
  let resultadoIrpfAnual := (pagoTeorico - retencionesSoportadas)%num in
  let retencionesPracticadas := sumBy irpfAmount expenses in
  let operationsByNif := operationsByNifOf yearInvoices in
  let model347List :=
    map (fun e => mkItem347 (fst e) (op_name (snd e)) (op_total (snd e))
                            (op_type (snd e)))
        (filter (fun e => gt (op_total (snd e)) lit_3005_06) operationsByNif) in
  let incomesWithWithholding :=
    filter (fun i => gt (irpfAmount i) zero) incomes in
  let model190Map := fold_left model190Step incomesWithWithholding [] in
  let model190List := map snd model190Map in
  mkCalculations ivaDevengado baseDevengado ivaSoportado baseSoportado
    listadoDesgloseSoportado result303 totalIngresos totalGastos
    rendimientoNeto pagoTeorico retencionesSoportadas resultadoIrpfAnual
    retencionesPracticadas model347List model190List.

Record QuarterData : Type := mkQuarterData {
  q_q : Z;
  devengado : num;
  soportado : num;
  res303 : num;
  ingresos : num;
  gastos : num;
  rend : num;
  pagoCuenta : num;
  retenciones : num;
  result130 : num;
  q_retencionesPracticadas : num
}.

(** The filter that selects the invoices of quarter [q]. *)
Definition inQuarter (currentYear q : Z) (inv : Invoice) : bool :=
  let startMonth := ((q - 1) * 3)%Z in
  let endMonth := (startMonth + 2)%Z in
  match getFullYear (date inv), getMonth (date inv) with
  | Some y, Some m =>
      (y =? currentYear)%Z && (m >=? startMonth)%Z && (m <=? endMonth)%Z
  | _, _ => false
  end.

(** The callback of [quarters.map] in [generatePDFReport]. *)
Definition quarterData (invoices : list Invoice) (currentYear q : Z)
  : QuarterData :=
  let qInvoices := filter (inQuarter currentYear q) invoices in
  let qIncomes := filter isIncome qInvoices in
  let qExpenses := filter isDeductibleExpense qInvoices in
  let devengado := sumBy ivaAmount qIncomes in
  let soportado := sumBy ivaAmount qExpenses in
  let ingresos := sumBy baseAmount qIncomes in
  let gastos := sumBy baseAmount qExpenses in
  let rend := (ingresos - gastos)%num in
  let pagoCuenta := if gt rend zero then (rend * lit_0_20)%num else zero in
  let retenciones := sumBy irpfAmount qIncomes in
  let result130 := (pagoCuenta - retenciones)%num in
  let retencionesPracticadas := sumBy irpfAmount qExpenses in
  mkQuarterData q devengado soportado (devengado - soportado)%num
    ingresos gastos rend pagoCuenta retenciones result130
    retencionesPracticadas.

(** The expression [rend > 0 ? rend * 0.20 : 0], which the annual and the
    quarterly computation both evaluate. *)
Definition cuotaDe (rend : num) : num :=
  if gt rend zero then (rend * lit_0_20)%num else zero.

(** The records that open or feed a group of [operationsByNif]. *)
Definition notInherited (x : Invoice) : bool := negb (inheritedKey (nif x)).

(** The vocabulary of the specification for Model 347: the records of a
    counterparty, their total, and the kind that dominates among them, by
    number of records or by amount (INCOME on a tie). *)
Definition groupOf (k : string) (yearInvoices : list Invoice) : list Invoice :=
  filter (fun x => String.eqb k (nif x)) yearInvoices.

Definition totalOf (k : string) (yearInvoices : list Invoice) : num :=
  sumBy (fun x => abs (totalAmount x)) (groupOf k yearInvoices).

Definition countOfKind (ty : InvoiceType) (l : list Invoice) : nat :=
  List.length (filter (fun x => InvoiceType_eqb (type x) ty) l).

Definition amountOfKind (ty : InvoiceType) (l : list Invoice) : num :=
  sumBy (fun x => abs (totalAmount x))
        (filter (fun x => InvoiceType_eqb (type x) ty) l).

Definition dominantKindByCount (l : list Invoice) : InvoiceType :=
  if (countOfKind INCOME l <? countOfKind EXPENSE l)%nat then EXPENSE else INCOME.

Definition dominantKindByAmount (l : list Invoice) : InvoiceType :=
  if gt (amountOfKind EXPENSE l) (amountOfKind INCOME l) then EXPENSE else INCOME.

(** [[1, 2, 3, 4].filter (q => q <= currentQuarter)] *)
Definition quarters (currentQuarter : Z) : list Z :=
  filter (fun q => (q <=? currentQuarter)%Z) [1; 2; 3; 4]%Z.

(** [Math.floor ((month + 3) / 3)] for the month of the clock *)
Definition currentQuarterOf (m : Month) : Z := ((monthIndex m + 3) / 3)%Z.

(** Sum of a column of the quarterly table over quarters 1 to 4. *)
Definition sumQuarters (f : QuarterData -> num) (invoices : list Invoice)
  (currentYear : Z) : num :=
  fold_left (fun s q => (s + f (quarterData invoices currentYear q))%num)
            [1; 2; 3; 4]%Z zero.

End TaxModels.

(** ** The write paths of the store (InvoiceManager) *)

Module Store.

(** The store is the [invoices] state of the application. *)
Definition store : Type := list Invoice.

Inductive SubmitOutcome : Type :=
| NifBlocked          (* [nifError] is set: nothing is saved *)
| DuplicateRejected   (* a duplicate was found: nothing is saved *)
| EditDeclined        (* the confirmation of the edit was refused *)
| EditSaved
| Created.

(** The search of [handleSubmit] for a record with the number and the
    type of the draft, and another id. *)
Definition findDuplicate (invoices : store) (invoiceData : Invoice)
  : option Invoice :=
  find (fun i => String.eqb (number i) (number invoiceData)
                 && InvoiceType_eqb (type i) (type invoiceData)
                 && negb (String.eqb (id i) (id invoiceData)))
       invoices.

Definition withId (newId : string) (i : Invoice) : Invoice :=
  mkInvoice newId (number i) (date i) (type i) (nif i) (entityName i)
    (baseAmount i) (ivaRate i) (ivaAmount i) (irpfRate i) (irpfAmount i)
    (totalAmount i) (deductible i).

(** [handleSubmit].  [form] holds the fields read from the form and the
    active tab, [editingId] the edit state ([None] is [null]), [uuid] the
    value of [crypto.randomUUID ()] and [confirmed] the answer to the
    confirmation of an edit. *)
Definition handleSubmit (invoices : store) (nifError : option string)
  (editingId : option string) (uuid : string) (form : Invoice)
  (confirmed : bool) : SubmitOutcome * store :=
  match nifError with
  | Some _ => (NifBlocked, invoices)
  | None =>
      let invoiceData :=
        withId (match editingId with Some e => e | None => uuid end) form in
      match findDuplicate invoices invoiceData with
      | Some _ => (DuplicateRejected, invoices)
      | None =>
          match editingId with
          | Some e =>
              if confirmed
              then (EditSaved,
                    map (fun inv => if String.eqb (id inv) e
                                    then invoiceData else inv) invoices)
              else (EditDeclined, invoices)
          | None => (Created, (invoices ++ [invoiceData])%list)
          end
      end
  end.

(** [handleBulkImport], once [parseFile] has produced [newInvoices];
    [confirmed] is the answer to the confirmation of the import. *)
Definition handleBulkImport (invoices : store) (newInvoices : list Invoice)
  (confirmed : bool) : store :=
  match newInvoices with
  | [] => invoices
  | _ => if confirmed then (invoices ++ newInvoices)%list else invoices
  end.

(** [confirmDelete]: removal of the record [invoiceToDelete] *)
Definition confirmDelete (invoices : store) (invoiceToDelete : string)
  : store :=
  filter (fun i => negb (String.eqb (id i) invoiceToDelete)) invoices.

(** [confirmBulkDelete]: removal of the selected records *)
Definition confirmBulkDelete (invoices : store) (selectedIds : list string)
  : store :=
  filter (fun inv => negb (existsb (String.eqb (id inv)) selectedIds))
         invoices.

(** One user action that writes the store. *)
Inductive step : store -> store -> Prop :=
| step_submit invoices nifError editingId uuid form confirmed :
    step invoices
         (snd (handleSubmit invoices nifError editingId uuid form confirmed))
| step_bulk_import invoices newInvoices confirmed :
    step invoices (handleBulkImport invoices newInvoices confirmed)
| step_delete invoices invoiceToDelete :
    step invoices (confirmDelete invoices invoiceToDelete)
| step_bulk_delete invoices selectedIds :
    step invoices (confirmBulkDelete invoices selectedIds).

(** The states reached from the empty store. *)
Inductive reachable : store -> Prop :=
| reachable_empty : reachable []
| reachable_step s s' : reachable s -> step s s' -> reachable s'.

(** Two records of the store at different positions share type and
    number. *)
Definition hasDuplicate (s : store) : Prop :=
  exists i j a b,
    i <> j /\ nth_error s i = Some a /\ nth_error s j = Some b
    /\ type a = type b /\ number a = number b.

(** The invariant of the store: no two records share type and number. *)
Definition uniqueNumbers (s : store) : Prop :=
  NoDup (map (fun i => (type i, number i)) s).

(** The store holds no other record (another id) with the type and the
    number of [d]. *)
Definition noOtherWithNumber (s : store) (d : Invoice) : Prop :=
  forall i, In i s -> number i = number d -> type i = type d -> id i = id d.

End Store.

(** ** Sample records *)

Module Examples.

(** An issued invoice of 2025. *)
Definition income (ident num : string) (m : Month) (taxId name : string)
  (b iva irpf : Q) : Invoice :=
  mkInvoice ident num (ValidDate 2025 m) INCOME taxId name
    (Fin b) (Fin 21) (Fin iva) (Fin 15) (Fin irpf) (Fin (b + iva - irpf)) None.

(** A deductible received invoice of 2025. *)
Definition expense (ident num : string) (m : Month) (taxId name : string)
  (b vatRate iva irpf : Q) : Invoice :=
  mkInvoice ident num (ValidDate 2025 m) EXPENSE taxId name
    (Fin b) (Fin vatRate) (Fin iva) (Fin 0) (Fin irpf) (Fin (b + iva - irpf))
    (Some true).

(** A first quarter with expenses only, then a second quarter with
    income only. *)
Definition lossThenProfit : list Invoice :=
  [ expense "e1" "R-25-1" Jan "B12345678" "Proveedor" 1000 21 210 0;
    income "i1" "A-25-1" Apr "12345678Z" "Cliente" 1000 210 0 ].

(** The scenario of two invoices and one expense in the first quarter. *)
Definition firstQuarter : list Invoice :=
  [ income "i1" "A-25-1" Jan "12345678Z" "Cliente" 1000 210 150;
    income "i2" "A-25-2" Feb "12345678Z" "Cliente" 1000 210 150;
    expense "e1" "R-25-1" Mar "B12345678" "Proveedor" 100 21 21 0 ].

(** A record that carries only a type and a number. *)
Definition numbered (ident : string) (ty : InvoiceType) (num : string)
  : Invoice :=
  mkInvoice ident num (ValidDate 2025 Jan) ty "12345678Z" "Cliente"
    zero zero zero zero zero zero None.

(** The snapshot with [A-25-5] issued and [R-25-9] received. *)
Definition ledger25 : list Invoice :=
  [ numbered "i5" INCOME "A-25-5"; numbered "e9" EXPENSE "R-25-9" ].

(** Deductible expenses at three rates, in no order. *)
Definition mixedRates : list Invoice :=
  [ expense "e1" "R-25-1" Jan "B12345678" "Proveedor" 100 10 10 0;
    expense "e2" "R-25-2" Feb "B12345678" "Proveedor" 200 21 42 0;
    expense "e3" "R-25-3" May "B87654321" "Otro" 50 4 2 0;
    expense "e4" "R-25-4" Sep "B12345678" "Proveedor" 300 21 63 0 ].

(** A record of 2025 with a given counterparty and total. *)
Definition operation (ident : string) (ty : InvoiceType) (taxId name : string)
  (t : Q) : Invoice :=
  mkInvoice ident ident (ValidDate 2025 Mar) ty taxId name
    (Fin t) zero zero zero zero (Fin t) (Some true).

(** One counterparty: a small issued invoice first, then two large
    received ones. *)
Definition mostlySupplier : list Invoice :=
  [ operation "i1" INCOME "B12345678" "Bufete" 100;
    operation "e1" EXPENSE "B12345678" "Bufete" 2000;
    operation "e2" EXPENSE "B12345678" "Bufete" 2000 ].

(** Two counterparties, one at the threshold and one a cent above. *)
Definition atThreshold : list Invoice :=
  [ operation "a1" INCOME "A11111111" "Justo" (300506 # 100);
    operation "b1" INCOME "B22222222" "Encima" 3000;
    operation "b2" EXPENSE "B22222222" "Encima" (-507 # 100) ].

(** An issued invoice whose VAT amount is [v]. *)
Definition incomeWithVat (ident : string) (v : num) : Invoice :=
  mkInvoice ident ident (ValidDate 2025 Feb) INCOME "12345678Z" "Cliente"
    (Fin 1000) (Fin 21) v (Fin 15) (Fin 150) (Fin 1060) None.

(** A year with a sound invoice and one whose VAT amount is NaN, and the
    same year with zero in place of the NaN. *)
Definition withNaN : list Invoice :=
  [ incomeWithVat "i1" (Fin 210); incomeWithVat "i2" NaN ].

Definition withZero : list Invoice :=
  [ incomeWithVat "i1" (Fin 210); incomeWithVat "i2" zero ].

(** Two records with one type and one number, under two ids. *)
Definition twins : list Invoice :=
  [ numbered "id-1" INCOME "A-25-1"; numbered "id-2" INCOME "A-25-1" ].

(** Two clients that withhold, and an invoice without withholding. *)
Definition withholdings : list Invoice :=
  [ income "i1" "A-25-1" Jan "12345678Z" "Cliente" 1000 210 150;
    income "i2" "A-25-2" Feb "B12345678" "Sociedad" 500 105 75;
    income "i3" "A-25-3" May "12345678Z" "Cliente" 200 42 30;
    income "i4" "A-25-4" Jun "00000000T" "Particular" 100 21 0 ].

End Examples.

(** ** Saves through the form and deletions *)

Module FormPaths.

Import Store.

(** One action that writes the store and is not a bulk import.  A new
    record takes the identifier that [crypto.randomUUID ()] returns, which
    no stored record has. *)
Inductive formStep : store -> store -> Prop :=
| form_create invoices nifError uuid form confirmed :
    ~ In uuid (map id invoices) ->
    formStep invoices
             (snd (handleSubmit invoices nifError None uuid form confirmed))
| form_edit invoices nifError e uuid form confirmed :
    formStep invoices
             (snd (handleSubmit invoices nifError (Some e) uuid form confirmed))
| form_delete invoices invoiceToDelete :
    formStep invoices (confirmDelete invoices invoiceToDelete)
| form_bulk_delete invoices selectedIds :
    formStep invoices (confirmBulkDelete invoices selectedIds).

(** The states reached from the empty store without a bulk import. *)
Inductive reachableByForm : store -> Prop :=
| byForm_empty : reachableByForm []
| byForm_step s s' : reachableByForm s -> formStep s s' -> reachableByForm s'.

End FormPaths.

(** ** The tax id field of the form (InvoiceManager, [handleNifBlur]) *)

Module NifField.

Import TaxId.

Inductive ActiveTab : Type :=
| TabIncome
| TabExpense
| TabList.

(** The type that [handleSubmit] gives to the record of a tab. *)
Definition tabType (activeTab : ActiveTab) : InvoiceType :=
  match activeTab with
  | TabIncome => INCOME
  | _ => EXPENSE
  end.

(** [formData.nif] (empty when undefined), [nifError] and [nifWarning]. *)
Record NifState : Type := mkNifState {
  formNif : string;
  nifError : option string;
  nifWarning : option string
}.

Definition blurWarning : string :=
  "Aviso: NIF no normativo español. Se aceptará como Intracomunitario/Extranjero.".

Definition handleNifBlur (activeTab : ActiveTab) (st : NifState) : NifState :=
  if truthy (formNif st) then
    let upperNif := toUpperCase (formNif st) in
    let error := validateSpanishID upperNif in
    match error with
    | Some e =>
        match activeTab with
        | TabExpense => mkNifState upperNif None (Some blurWarning)
        | _ => mkNifState upperNif (Some e) None
        end
    | None => mkNifState upperNif None None
    end
  else st.

End NifField.

(** ** The dashboard (Dashboard, headline totals and [monthlyData]) *)

Module Dashboard.

Import TaxModels.

Definition isExpense (i : Invoice) : bool := InvoiceType_eqb (type i) EXPENSE.

Record Totals : Type := mkTotals {
  totalIncome : num;
  totalExpenses : num;
  netProfit : num;
  totalIVACollected : num;
  totalIVAPaid : num;
  estimatedIVA : num
}.

(** The headline figures: no filter on the date. *)
Definition totals (invoices : list Invoice) : Totals :=
  let incomeInvoices := filter isIncome invoices in
  let expenseInvoices := filter isExpense invoices in
  let totalIncome := sumBy baseAmount incomeInvoices in
  let totalExpenses := sumBy baseAmount (filter isDeductible expenseInvoices) in
  let netProfit := (totalIncome - totalExpenses)%num in
  let totalIVACollected := sumBy ivaAmount incomeInvoices in
  let totalIVAPaid := sumBy ivaAmount (filter isDeductible expenseInvoices) in
  let estimatedIVA := (totalIVACollected - totalIVAPaid)%num in
  mkTotals totalIncome totalExpenses netProfit totalIVACollected totalIVAPaid
    estimatedIVA.

(** [getMonth () === month && getFullYear () === currentYear] *)
Definition inMonth (currentYear month : Z) (inv : Invoice) : bool :=
  match getMonth (date inv), getFullYear (date inv) with
  | Some m, Some y => (m =? month)%Z && (y =? currentYear)%Z
  | _, _ => false
  end.

(** A bar of the monthly chart; [month] stands for the name of the month,
    which the source takes from the locale. *)
Record MonthRow : Type := mkMonthRow {
  month : Z;
  Ingresos : num;
  Gastos : num;
  Repercutido : num;
  Soportado : num
}.

(** The callback of [Array.from ({ length: 12 }, ...)]. *)
Definition monthRow (invoices : list Invoice) (currentYear i : Z) : MonthRow :=
  let incomeInvoices := filter isIncome invoices in
  let expenseInvoices := filter isExpense invoices in
  let month := i in
  let monthIncomes := filter (inMonth currentYear month) incomeInvoices in
  let monthExpenses :=
    filter (fun inv => inMonth currentYear month inv && isDeductible inv)
           expenseInvoices in
  let monthIncomeBase := sumBy baseAmount monthIncomes in
  let monthExpenseBase := sumBy baseAmount monthExpenses in
  let monthIvaRepercutido := sumBy ivaAmount monthIncomes in
  let monthIvaSoportado := sumBy ivaAmount monthExpenses in
  mkMonthRow i monthIncomeBase monthExpenseBase monthIvaRepercutido
    monthIvaSoportado.

Definition monthlyData (invoices : list Invoice) (currentYear : Z)
  : list MonthRow :=
  map (fun i => monthRow invoices currentYear (Z.of_nat i)) (seq 0 12).

End Dashboard.

(** ** The closing of the fiscal year (FiscalYearCloser, [stats]; pdfGenerator,
    the figures of [generateFiscalYearReport]) *)

Module FiscalYearCloser.

Import TaxModels.

Record Stats : Type := mkStats {
  count : nat;
  incomeTotal : num;
  expenseTotal : num;
  vatResult : num;
  irpfSuffered : num
}.

Definition stats (invoices : list Invoice) (selectedYear : Z) : Stats :=
  let yearInvoices := filter (inYear selectedYear) invoices in
  let incomes := filter isIncome yearInvoices in
  let expenses := filter isDeductibleExpense yearInvoices in
  mkStats (List.length yearInvoices)
    (sumBy baseAmount incomes)
    (sumBy baseAmount expenses)
    (sumBy ivaAmount incomes - sumBy ivaAmount expenses)%num
    (sumBy irpfAmount incomes).

Record ReportFigures : Type := mkReportFigures {
  r_totalIncome : num;
  r_totalExpense : num;
  r_netResult : num;
  r_ivaRepercutido : num;
  r_ivaSoportado : num;
  r_ivaResult : num;
  r_irpfSoportado : num;
  r_irpfPracticado : num
}.

(** The figures that [generateFiscalYearReport] prints. *)
Definition reportFigures (year : Z) (invoices : list Invoice) : ReportFigures :=
  let yearInvoices := filter (inYear year) invoices in
  let incomes := filter isIncome yearInvoices in
  let expenses := filter isDeductibleExpense yearInvoices in
  let totalIncome := sumBy baseAmount incomes in
  let totalExpense := sumBy baseAmount expenses in
  let netResult := (totalIncome - totalExpense)%num in
  let ivaRepercutido := sumBy ivaAmount incomes in
  let ivaSoportado := sumBy ivaAmount expenses in
  let ivaResult := (ivaRepercutido - ivaSoportado)%num in
  let irpfSoportado := sumBy irpfAmount incomes in
  let irpfPracticado := sumBy irpfAmount expenses in
  mkReportFigures totalIncome totalExpense netResult ivaRepercutido
    ivaSoportado ivaResult irpfSoportado irpfPracticado.

End FiscalYearCloser.

(** ** The years on offer (InvoiceManager and FiscalYearCloser,
    [availableYears]) *)

Module Years.

(** A year as [getFullYear] returns it, [None] being NaN. *)
Definition yearNum (y : option Z) : num :=
  match y with
  | Some z => Fin (inject_Z z)
  | None => NaN
  end.

(** The equality of the elements of a [Set]: NaN equals NaN. *)
Definition sameYear (a b : option Z) : bool :=
  match a, b with
  | Some x, Some y => (x =? y)%Z
  | None, None => true
  | _, _ => false
  end.

(** [set.add (y)]: a member is added once, at the end. *)
Definition setAdd (y : option Z) (set : list (option Z)) : list (option Z) :=
  if existsb (sameYear y) set then set else (set ++ [y])%list.

(** [new Set (arr)], in the order of the first occurrences. *)
Definition setOf (arr : list (option Z)) : list (option Z) :=
  fold_left (fun set y => setAdd y set) arr [].

Definition yearsOf (invoices : list Invoice) : list (option Z) :=
  map (fun inv => getFullYear (date inv)) invoices.

(** InvoiceManager; [currentYear] is [new Date ().getFullYear ()]. *)
Definition availableYears (invoices : list Invoice) (currentYear : Z)
  : list (option Z) :=
  let years := setOf (yearsOf invoices) in
  let years := setAdd (Some currentYear) years in
  TaxModels.sortBy (TaxModels.byDescending yearNum) years.

(** FiscalYearCloser: the year of the clock is not added. *)
Definition closerAvailableYears (invoices : list Invoice) : list (option Z) :=
  let years := setOf (yearsOf invoices) in
  TaxModels.sortBy (TaxModels.byDescending yearNum) years.

End Years.

(** ** The fields of the CSV export (InvoiceManager, [escapeCsv]) *)

Module Csv.

Definition comma : ascii := ","%char.
Definition quote : ascii := "034"%char.
Definition newline : ascii := "010"%char.

(** [s.replace (/\034/g, ...)] with two quotes for each quote. *)
Fixpoint doubleQuotes (s : string) : string :=
  match s with
  | EmptyString => EmptyString
  | String c r =>
      if Ascii.eqb c quote then String quote (String quote (doubleQuotes r))
      else String c (doubleQuotes r)
  end.

(** [escapeCsv] on the values the export passes to it: a string, or
    [undefined], which is [None]. *)
Definition escapeCsv (str : option string) : string :=
  match str with
  | None => EmptyString
  | Some stringValue =>
      if inString comma stringValue || inString quote stringValue
         || inString newline stringValue
      then String quote (doubleQuotes stringValue ++ String quote EmptyString)
      else stringValue
  end.

(** The number of occurrences of a character. *)
Fixpoint countChar (c : ascii) (s : string) : nat :=
  match s with
  | EmptyString => 0
  | String d r => (if Ascii.eqb d c then 1 else 0) + countChar c r
  end.

End Csv.

(** ** The import of sheets (importService, [normalizeNumber] and
    [normalizeDate]) and the dates of the export (InvoiceManager,
    [formatDate]) *)

Module ImportService.

(** A cell of a row as the reader of the sheet hands it over. *)
Inductive Cell : Type :=
| CellUndefined
| CellNumber (n : num)
| CellString (s : string)
| CellBoolean (b : bool).

(** The characters of the class [0-9,.-]. *)
Definition keepNumberChar (c : ascii) : bool := isDigit c || inString c ",.-".

(** [value.replace (/[^0-9,.-]/g, '')] *)
Fixpoint removeOthers (s : string) : string :=
  match s with
  | EmptyString => EmptyString
  | String c r =>
      if keepNumberChar c then String c (removeOthers r) else removeOthers r
  end.

(** [s.replace (a, b)] for two characters: the first occurrence only. *)
Fixpoint replaceFirst (a b : ascii) (s : string) : string :=
  match s with
  | EmptyString => EmptyString
  | String c r =>
      if Ascii.eqb c a then String b r else String c (replaceFirst a b r)
  end.

(** The digits at the head of a string, and what follows them. *)
Fixpoint spanDigits (s : string) : string * string :=
  match s with
  | EmptyString => (EmptyString, EmptyString)
  | String c r =>
      if isDigit c then let (d, rest) := spanDigits r in (String c d, rest)
      else (EmptyString, s)
  end.

(** The value of the digits [ip], a point and the digits [fp]. *)
Definition decimalOf (ip fp : string) : Q :=
  inject_Z (Z.of_N (decimalValue ip))
  + inject_Z (Z.of_N (decimalValue fp))
    / inject_Z (10 ^ Z.of_nat (String.length fp)).

(** [parseFloat (s)] for a string of the characters [0-9,.-], which is
    what [normalizeNumber] passes: an optional minus sign, digits, and a
    point with digits; NaN when no digit is read. *)
Definition parseFloat (s : string) : num :=
  let (negative, r) :=
    match s with
    | String c r => if Ascii.eqb c "-" then (true, r) else (false, s)
    | EmptyString => (false, s)
    end in
  let (ip, r1) := spanDigits r in
  let fp :=
    match r1 with
    | String c r2 => if Ascii.eqb c "." then fst (spanDigits r2)
                     else EmptyString
    | EmptyString => EmptyString
    end in
  if truthy ip || truthy fp
  then Fin (if negative then - decimalOf ip fp else decimalOf ip fp)
  else NaN.

(** [v || 0] *)
Definition orZero (v : num) : num :=
  match v with
  | NaN => zero
  | Fin q => if Qeq_bool q 0 then zero else v
  | _ => v
  end.

Definition normalizeNumber (value : Cell) : num :=
  match value with
  | CellNumber n => n
  | CellString s =>
      let clean := replaceFirst "," "." (removeOthers s) in
      orZero (parseFloat clean)
  | _ => zero
  end.

(** [s.split (sep)] for a separator of one character. *)
Fixpoint split (sep : ascii) (s : string) : list string :=
  match s with
  | EmptyString => [EmptyString]
  | String c r =>
      if Ascii.eqb c sep then EmptyString :: split sep r
      else match split sep r with
           | h :: t => String c h :: t
           | [] => [String c EmptyString]
           end
  end.

(** [s.padStart (2, '0')] *)
Definition padStart2 (s : string) : string :=
  match String.length s with
  | 0%nat => "00"
  | 1%nat => String "0" s
  | _ => s
  end.

Definition falsyCell (value : Cell) : bool :=
  match value with
  | CellUndefined => true
  | CellNumber NaN => true
  | CellNumber (Fin q) => Qeq_bool q 0
  | CellNumber _ => false
  | CellString s => negb (truthy s)
  | CellBoolean b => negb b
  end.

Section Dates.

(** [new Date ().toISOString ().split ('T')[0]], the date of a serial
    number of a sheet, and the date that the locale writes. *)
Variable today : string.
Variable excelDate : num -> string.
Variable localeDate : string -> string.

Definition normalizeDate (value : Cell) : string :=
  if falsyCell value then today
  else
    match value with
    | CellNumber n => excelDate n
    | CellString s =>
        let viaSlash :=
          if inString "/" s then
            match split "/" s with
            | [p0; p1; p2] =>
                Some (p2 ++ "-" ++ padStart2 p1 ++ "-" ++ padStart2 p0)
            | _ => None
            end
          else None in
        match viaSlash with
        | Some r => r
        | None => if inString "-" s then s else today
        end
    | _ => today
    end.

(** [formatDate] of the invoice manager; [None] is [undefined]. *)
Definition formatDate (dateStr : option string) : string :=
  match dateStr with
  | None => EmptyString
  | Some s =>
      if negb (truthy s) then EmptyString
      else
        let viaDash :=
          if inString "-" s then
            match split "-" s with
            | [p0; p1; p2] => Some (p2 ++ "/" ++ p1 ++ "/" ++ p0)
            | _ => None
            end
          else None in
        match viaDash with
        | Some r => r
        | None => localeDate s
        end
  end.

End Dates.

End ImportService.

(** ** The number field of the form (InvoiceManager, [handleInputChange]
    for the field [number]) *)

Module NumberField.

Import TaxId NifField.

(** The state that the handler reads and writes: the form, the edit state
    ([None] is [null]) and the two messages of the tax id. *)
Record FormState : Type := mkFormState {
  formData : Invoice;
  editingId : option string;
  formNifError : option string;
  formNifWarning : option string
}.

(** [{ ...formData, number: value }] *)
Definition withNumber (value : string) (i : Invoice) : Invoice :=
  mkInvoice (id i) value (date i) (type i) (nif i) (entityName i)
    (baseAmount i) (ivaRate i) (ivaAmount i) (irpfRate i) (irpfAmount i)
    (totalAmount i) (deductible i).

Definition loadedWarning : string :=
  "Aviso: Formato no estándar (Guardado previamente)".

Definition handleNumberChange (invoices : list Invoice) (activeTab : ActiveTab)
  (st : FormState) (value : string) : FormState :=
  let newFormData := withNumber value (formData st) in
  let targetType := tabType activeTab in
  match editingId st with
  | Some _ =>
      mkFormState newFormData (editingId st) (formNifError st)
        (formNifWarning st)
  | None =>
      let existingInvoice :=
        find (fun inv => String.eqb (number inv) value
                         && InvoiceType_eqb (type inv) targetType)
             invoices in
      match existingInvoice with
      | Some existing =>
          match validateSpanishID (nif existing) with
          | Some error =>
              match targetType with
              | EXPENSE =>
                  mkFormState existing (Some (id existing)) None
                    (Some loadedWarning)
              | INCOME =>
                  mkFormState existing (Some (id existing)) (Some error) None
              end
          | None => mkFormState existing (Some (id existing)) None None
          end
      | None =>
          mkFormState newFormData None (formNifError st) (formNifWarning st)
      end
  end.

End NumberField.

(** ** The amounts of an imported row (importService, [mapRowToInvoice]) and
    the proposal of a number (InvoiceManager, the effect that suggests the
    next number) *)

Module ImportedRow.

Import ImportService.

(** [!v] for a number: zero and NaN. *)
Definition falsy (v : num) : bool :=
  match v with
  | NaN => true
  | Fin q => Qeq_bool q 0
  | _ => false
  end.

(** [v || d] *)
Definition orElse (v d : num) : num := if falsy v then d else v.

(** [a / 100] *)
Definition div100 (a : num) : num :=
  match a with
  | Fin q => Fin (q / 100)
  | _ => a
  end.

(** What [getCol] found for the columns of the amounts; [CellUndefined]
    when the row has no such column. *)
Record AmountCells : Type := mkAmountCells {
  baseCell : Cell;
  ivaRateCell : Cell;
  irpfRateCell : Cell;
  ivaAmountCell : Cell;
  irpfAmountCell : Cell;
  totalCell : Cell
}.

Record Amounts : Type := mkAmounts {
  a_baseAmount : num;
  a_ivaRate : num;
  a_ivaAmount : num;
  a_irpfRate : num;
  a_irpfAmount : num;
  a_totalAmount : num
}.

(** The amounts that [mapRowToInvoice] gives to the record; the formula
    of the total is the same for both types. *)
Definition rowAmounts (cells : AmountCells) : Amounts :=
  let baseAmount := normalizeNumber (baseCell cells) in
  let ivaRate := orElse (normalizeNumber (ivaRateCell cells)) (Fin 21) in
  let irpfRate := orElse (normalizeNumber (irpfRateCell cells)) zero in
  let ivaAmount := normalizeNumber (ivaAmountCell cells) in
  let ivaAmount :=
    if falsy ivaAmount then (baseAmount * div100 ivaRate)%num else ivaAmount in
  let irpfAmount := normalizeNumber (irpfAmountCell cells) in
  let irpfAmount :=
    if falsy irpfAmount then (baseAmount * div100 irpfRate)%num
    else irpfAmount in
  let totalAmount := normalizeNumber (totalCell cells) in
  let totalAmount :=
    if falsy totalAmount then (baseAmount + ivaAmount - irpfAmount)%num
    else totalAmount in
  mkAmounts baseAmount ivaRate ivaAmount irpfRate irpfAmount totalAmount.

End ImportedRow.

Module Suggestion.

Import Sequencer NifField.

(** [s.startsWith (p)] *)
Definition startsWith (p s : string) : bool :=
  match stripPrefix p s with
  | Some _ => true
  | None => false
  end.

(** One run of the effect: the number of the form after it.  [number] is
    empty when the field is undefined; [yearFull] is the year of the
    clock. *)
Definition suggestNumber (invoices : list Invoice) (yearFull : N)
  (activeTab : ActiveTab) (editingId : option string) (number : string)
  : string :=
  match editingId with
  | Some _ => number
  | None =>
      match activeTab with
      | TabIncome =>
          let nextNum := calculateNextNumber invoices yearFull INCOME in
          if negb (truthy number) || startsWith "A-" number then nextNum
          else number
      | TabExpense =>
          let nextNum := calculateNextNumber invoices yearFull EXPENSE in
          if negb (truthy number) || startsWith "R-" number
             || String.eqb number EmptyString
          then nextNum else number
      | TabList => number
      end
  end.

End Suggestion.

(** * Properties *)

(** ** Arithmetic of [num] *)

Section NumFacts.

Local Open Scope num_scope.

Lemma num_eq_refl (a : num) : a === a.
Proof. destruct a; simpl; auto with qarith. Qed.

Lemma num_eq_sym (a b : num) : a === b -> b === a.
Proof. destruct a, b; simpl; auto with qarith. Qed.

Lemma num_eq_trans (a b c : num) : a === b -> b === c -> a === c.
Proof.
  destruct a, b, c; simpl; try tauto.
  intros H1 H2. now rewrite H1.
Qed.

#[export] Instance num_eq_Equivalence : Equivalence num_eq.
Proof.
  split.
  - exact num_eq_refl.
  - exact num_eq_sym.
  - exact num_eq_trans.
Qed.

#[export] Instance add_Proper : Proper (num_eq ==> num_eq ==> num_eq) add.
Proof.
  intros a a' Ha b b' Hb.
  destruct a, a', b, b'; simpl in *; try tauto.
  now rewrite Ha, Hb.
Qed.

#[export] Instance neg_Proper : Proper (num_eq ==> num_eq) neg.
Proof.
  intros a a' Ha. destruct a, a'; simpl in *; try tauto.
  now rewrite Ha.
Qed.

#[export] Instance sub_Proper : Proper (num_eq ==> num_eq ==> num_eq) sub.
Proof.
  intros a a' Ha b b' Hb. unfold sub. now rewrite Ha, Hb.
Qed.

Lemma add_comm (a b : num) : a + b === b + a.
Proof. destruct a, b; simpl; auto. ring. Qed.

Lemma add_assoc (a b c : num) : a + (b + c) === (a + b) + c.
Proof. destruct a, b, c; simpl; auto. ring. Qed.

Lemma add_zero_l (a : num) : zero + a === a.
Proof. destruct a; simpl; auto. ring. Qed.

Lemma add_zero_r (a : num) : a + zero === a.
Proof. destruct a; simpl; auto. ring. Qed.

Lemma neg_add (a b : num) : neg (a + b) === neg a + neg b.
Proof. destruct a, b; simpl; auto. ring. Qed.

Lemma isFinite_add (a b : num) :
  isFinite a = true -> isFinite b = true -> isFinite (a + b) = true.
Proof. destruct a, b; simpl; auto. Qed.

Lemma isFinite_sub (a b : num) :
  isFinite a = true -> isFinite b = true -> isFinite (a - b) = true.
Proof. destruct a, b; simpl; auto. Qed.

Lemma add_NaN_r (a : num) : a + NaN = NaN.
Proof. destruct a; reflexivity. Qed.

Lemma Qlt_bool_iff (p q : Q) : Qlt_bool p q = true <-> (p < q)%Q.
Proof.
  unfold Qlt_bool. rewrite negb_true_iff.
  split; intro H.
  - apply Qnot_le_lt. intro Hle. apply Qle_bool_iff in Hle. congruence.
  - destruct (Qle_bool q p) eqn:E; auto.
    apply Qle_bool_iff in E. exfalso. apply (Qlt_not_le _ _ H E).
Qed.

Lemma Qlt_bool_false_iff (p q : Q) : Qlt_bool p q = false <-> (q <= p)%Q.
Proof.
  unfold Qlt_bool. rewrite negb_false_iff. apply Qle_bool_iff.
Qed.

End NumFacts.

(** ** Sums over records *)

Section SumFacts.

Local Open Scope num_scope.

Context {A : Type}.

Variable f : A -> num.

Lemma fold_sum_acc (l : list A) (acc : num) :
  fold_left (fun sum i => sum + f i) l acc === acc + total f l.
Proof.
  revert acc. induction l as [|i r IH]; intro acc; simpl.
  - symmetry. apply add_zero_r.
  - rewrite IH. symmetry. apply add_assoc.
Qed.

Lemma sumBy_total (l : list A) : sumBy f l === total f l.
Proof. unfold sumBy. rewrite fold_sum_acc. apply add_zero_l. Qed.

Lemma sumBy_nil : sumBy f [] = zero.
Proof. reflexivity. Qed.

Lemma sumBy_cons (i : A) (l : list A) :
  sumBy f (i :: l) === f i + sumBy f l.
Proof. rewrite !sumBy_total. reflexivity. Qed.

Lemma sumBy_filter_cons (c : A -> bool) (i : A) (l : list A) :
  sumBy f (filter c (i :: l))
  === (if c i then f i else zero) + sumBy f (filter c l).
Proof.
  simpl. destruct (c i).
  - apply sumBy_cons.
  - symmetry. apply add_zero_l.
Qed.

Lemma sumBy_finite (l : list A) :
  (forall i, In i l -> isFinite (f i) = true) ->
  isFinite (sumBy f l) = true.
Proof.
  unfold sumBy. generalize zero (eq_refl : isFinite zero = true).
  induction l as [|i r IH]; intros acc Hacc H; simpl; auto.
  apply IH.
  - apply isFinite_add; auto. apply H. now left.
  - intros j Hj. apply H. now right.
Qed.

Lemma fold_sum_NaN (l : list A) :
  fold_left (fun sum i => sum + f i) l NaN = NaN.
Proof. induction l; simpl; auto. Qed.

Lemma sumBy_NaN (l : list A) (i : A) :
  In i l -> f i = NaN -> sumBy f l = NaN.
Proof.
  unfold sumBy. generalize zero.
  induction l as [|j r IH]; intros acc Hin Hf; simpl; [contradiction|].
  destruct Hin as [->|Hin].
  - rewrite Hf, add_NaN_r. apply fold_sum_NaN.
  - now apply IH.
Qed.

End SumFacts.

(** ** Addition of [num] is associative and commutative up to [num_eq] *)

Section AC.
Local Open Scope num_scope.
#[export] Instance add_Associative : Associative num_eq add.
Proof. intros a b c. apply add_assoc. Qed.
#[export] Instance add_Commutative : Commutative num_eq add.
Proof. intros a b. apply add_comm. Qed.
#[export] Instance add_Unit : Unit num_eq add zero.
Proof. split; intro a; [apply add_zero_l | apply add_zero_r]. Qed.
End AC.

(** ** The quarters partition the year *)

Section Quarters.
Import TaxModels.
Local Open Scope num_scope.

Lemma filter_filter {A} (c d : A -> bool) (l : list A) :
  filter c (filter d l) = filter (fun x => d x && c x) l.
Proof.
  induction l as [|x r IH]; simpl; auto.
  destruct (d x); simpl; [destruct (c x)|]; now rewrite IH.
Qed.

(** Every record of the year falls in one quarter, and in one only. *)
Lemma year_indicator (y : Z) (i : Invoice) (b : bool) (x : num) :
  (if inYear y i && b then x else zero)
  === (((zero + (if inQuarter y 1 i && b then x else zero))
        + (if inQuarter y 2 i && b then x else zero))
       + (if inQuarter y 3 i && b then x else zero))
      + (if inQuarter y 4 i && b then x else zero).
Proof.
  unfold inYear, inQuarter, getFullYear, getMonth.
  destruct (date i) as [|y' m]; cbn -[add zero].
  - aac_reflexivity.
  - destruct (y' =? y)%Z; cbn -[add zero]; [|aac_reflexivity].
    destruct m; cbn -[add zero]; destruct b; aac_reflexivity.
Qed.

Lemma sum_year_quarters (f : Invoice -> num) (c : Invoice -> bool)
  (y : Z) (l : list Invoice) :
  sumBy f (filter c (yearInvoicesOf l y))
  === fold_left
        (fun s q => s + sumBy f (filter c (filter (inQuarter y q) l)))
        [1; 2; 3; 4]%Z zero.
Proof.
  unfold yearInvoicesOf. cbn [fold_left]. rewrite !filter_filter.
  induction l as [|i r IH].
  - cbn -[add zero]. aac_reflexivity.
  - rewrite !sumBy_filter_cons, IH, (year_indicator y i (c i) (f i)).
    aac_reflexivity.
Qed.
End Quarters.

(** ** Model 130: the quota is not additive *)

Section Model130.
Import TaxModels.
Local Open Scope num_scope.

Lemma neg_zero : neg zero === zero.
Proof. simpl. ring. Qed.

Lemma sub_sum4 (a1 a2 a3 a4 b1 b2 b3 b4 : num) :
  ((((zero + a1) + a2) + a3) + a4) - ((((zero + b1) + b2) + b3) + b4)
  === (((zero + (a1 - b1)) + (a2 - b2)) + (a3 - b3)) + (a4 - b4).
Proof.
  unfold sub. rewrite !neg_add, neg_zero. aac_reflexivity.
Qed.

Lemma Qlt_bool_false_iff_neg (p q : Q) : Qle_bool p q = false -> (q < p)%Q.
Proof.
  intro H. apply Qnot_le_lt. intro Hle. apply Qle_bool_iff in Hle. congruence.
Qed.

Ltac q_cases :=
  repeat match goal with
    | |- context [Qle_bool ?a ?b] =>
        let E := fresh "E" in
        destruct (Qle_bool a b) eqn:E;
        [apply Qle_bool_iff in E | apply Qlt_bool_false_iff_neg in E]
    end.

Ltac fin_only :=
  repeat match goal with
    | H : num_le zero ?x |- _ => destruct x; cbn [num_le zero] in H; try contradiction
    | H : isFinite ?x = true |- _ => destruct x; try discriminate H; clear H
    end.

(** With no negative quarter the quota of the year is the sum of the
    quotas of the quarters. *)
Lemma cuotaDe_additive (R r1 r2 r3 r4 : num) :
  num_le zero r1 -> num_le zero r2 -> num_le zero r3 -> num_le zero r4 ->
  R === (((zero + r1) + r2) + r3) + r4 ->
  cuotaDe R
  === (((zero + cuotaDe r1) + cuotaDe r2) + cuotaDe r3) + cuotaDe r4.
Proof.
  intros H1 H2 H3 H4 HR. fin_only.
  destruct R; cbn [num_eq add zero] in HR; try contradiction.
  unfold cuotaDe, gt, zero, lit_0_20, Qlt_bool.
  q_cases; cbn [negb mul add num_eq]; lra.
Qed.

(** In general the quota of the year is at most that sum. *)
Lemma cuotaDe_subadditive (R r1 r2 r3 r4 : num) :
  isFinite r1 = true -> isFinite r2 = true ->
  isFinite r3 = true -> isFinite r4 = true ->
  R === (((zero + r1) + r2) + r3) + r4 ->
  num_le (cuotaDe R)
         ((((zero + cuotaDe r1) + cuotaDe r2) + cuotaDe r3) + cuotaDe r4).
Proof.
  intros H1 H2 H3 H4 HR. fin_only.
  destruct R; cbn [num_eq add zero] in HR; try contradiction.
  unfold cuotaDe, gt, zero, lit_0_20, Qlt_bool.
  q_cases; cbn [negb mul add num_le]; lra.
Qed.

End Model130.

(** ** C1: annual figures and the sum of the quarters *)

Section AnnualAndQuarters.
Import TaxModels Examples.
Local Open Scope num_scope.

Lemma num_le_compat (a a' b b' : num) :
  a === a' -> b === b' -> num_le a b -> num_le a' b'.
Proof.
  destruct a, a', b, b'; simpl; try tauto.
  intros Ha Hb H. now rewrite <- Ha, <- Hb.
Qed.

Lemma num_le_sub (a b t : num) :
  isFinite t = true -> num_le a b -> num_le (a - t) (b - t).
Proof.
  destruct a, b, t; simpl; try tauto; try discriminate.
  intros _ H. lra.
Qed.

Lemma isFinite_compat (a b : num) :
  a === b -> isFinite b = true -> isFinite a = true.
Proof. destruct a, b; simpl; tauto. Qed.

Lemma sumBy_filter2_finite (f : Invoice -> num) (c d : Invoice -> bool)
  (l : list Invoice) :
  (forall i, In i l -> d i = true -> isFinite (f i) = true) ->
  isFinite (sumBy f (filter c (filter d l))) = true.
Proof.
  intro H. apply sumBy_finite. intros i Hi.
  apply filter_In in Hi. destruct Hi as [Hi _].
  apply filter_In in Hi. destruct Hi as [Hi Hd]. now apply H.
Qed.

Lemma inQuarter_inYear (year q : Z) (i : Invoice) :
  inQuarter year q i = true -> inYear year i = true.
Proof.
  unfold inQuarter, inYear, getFullYear, getMonth.
  destruct (date i) as [|y m]; [discriminate|].
  intro H. apply andb_true_iff in H. destruct H as [H _].
  apply andb_true_iff in H. tauto.
Qed.

Lemma sum4_finite (a1 a2 a3 a4 : num) :
  isFinite a1 = true -> isFinite a2 = true ->
  isFinite a3 = true -> isFinite a4 = true ->
  isFinite ((((zero + a1) + a2) + a3) + a4) = true.
Proof. intros. repeat apply isFinite_add; auto. Qed.

End AnnualAndQuarters.

Section AnnualAndQuartersExamples.
Import TaxModels Examples.
Local Open Scope num_scope.


End AnnualAndQuartersExamples.

(** ** Strings *)

Section StringFacts.

Lemma parseDigits_allDigits (s : string) (acc : N) (seen : bool) :
  allDigits s = true ->
  parseDigits s acc seen = (decimalValueFrom acc s, seen || truthy s).
Proof.
  revert acc seen. induction s as [|c r IH]; intros acc seen H; simpl in *.
  - now rewrite orb_false_r.
  - apply andb_true_iff in H. destruct H as [Hc Hr].
    rewrite Hc, (IH _ _ Hr). now rewrite orb_true_r.
Qed.

Lemma parseInt_allDigits (s : string) :
  allDigits s = true -> truthy s = true ->
  parseInt s = Some (decimalValue s).
Proof.
  intros H Hne. unfold parseInt, decimalValue.
  rewrite (parseDigits_allDigits _ _ _ H). now rewrite Hne.
Qed.

Lemma substring_0_append (a b : string) :
  substring 0 (String.length a) (a ++ b) = a.
Proof.
  induction a as [|c a IH]; simpl.
  - now destruct b.
  - now rewrite IH.
Qed.

Lemma get_length_append (a : string) (c : ascii) (b : string) :
  String.get (String.length a) (a ++ String c b) = Some c.
Proof. induction a as [|x a IH]; simpl; auto. Qed.

Lemma matchClasses_app (cs1 cs2 : list (ascii -> bool)) (a b : string) :
  List.length cs1 = String.length a ->
  matchClasses (cs1 ++ cs2) (a ++ b)
  = matchClasses cs1 a && matchClasses cs2 b.
Proof.
  revert a. induction cs1 as [|c cs1 IH]; intros [|x a] H; simpl in *;
    try discriminate; auto.
  rewrite IH by congruence. now rewrite andb_assoc.
Qed.

Lemma matchClasses_repeat_isDigit (s : string) :
  matchClasses (repeat isDigit (String.length s)) s = allDigits s.
Proof. induction s as [|c r IH]; simpl; auto. now rewrite IH. Qed.

Lemma toUpperCase_truthy (s : string) : truthy (toUpperCase s) = truthy s.
Proof. now destruct s. Qed.

Lemma trimEnd_nonempty (s : string) : truthy (trimEnd s) = true -> truthy s = true.
Proof. now destruct s. Qed.

Lemma trimStart_nonempty (s : string) : truthy (trimStart s) = true -> truthy s = true.
Proof. now destruct s. Qed.

Lemma normalize_nonempty (value : string) :
  truthy (TaxId.normalize value) = true -> truthy value = true.
Proof.
  unfold TaxId.normalize, trim. intro H.
  apply trimEnd_nonempty, trimStart_nonempty in H.
  now rewrite toUpperCase_truthy in H.
Qed.

Lemma truthy_append_char (a : string) (c : ascii) (b : string) :
  truthy (a ++ String c b) = true.
Proof. now destruct a. Qed.

Lemma string_eqb_single (a b : ascii) :
  String.eqb (String a "") (String b "") = Ascii.eqb a b.
Proof. simpl. now destruct (Ascii.eqb a b). Qed.

End StringFacts.

(** ** C2: the check letter of DNI/NIF and NIE *)

Section CheckLetter.
Import TaxId.

Lemma nifRegex_shape (ds : string) (l : ascii) :
  String.length ds = 8%nat -> allDigits ds = true -> isUpper l = true ->
  nifRegex (ds ++ String l "") = true.
Proof.
  intros Hlen Hd Hl. unfold nifRegex.
  rewrite matchClasses_app by (rewrite repeat_length; congruence).
  rewrite <- Hlen, matchClasses_repeat_isDigit, Hd. simpl. now rewrite Hl.
Qed.

Lemma nieRegex_shape (p : ascii) (ds : string) (l : ascii) :
  inString p "XYZ" = true ->
  String.length ds = 7%nat -> allDigits ds = true -> isUpper l = true ->
  nieRegex (String p (ds ++ String l "")) = true.
Proof.
  intros Hp Hlen Hd Hl. unfold nieRegex.
  cbn [app matchClasses]. rewrite Hp. cbn [andb].
  rewrite matchClasses_app by (rewrite repeat_length; congruence).
  rewrite <- Hlen, matchClasses_repeat_isDigit, Hd. simpl. now rewrite Hl.
Qed.

Lemma nifRegex_letter_first (p : ascii) (s : string) :
  isDigit p = false -> nifRegex (String p s) = false.
Proof. intro H. unfold nifRegex. simpl. now rewrite H. Qed.

Lemma expectedLetterOf_get (n : N) (expected : ascii) :
  String.get (N.to_nat (n mod 23)) "TRWAGMYFPDXBNJZSQVHLCKE" = Some expected ->
  expectedLetterOf (Some n) = String expected "".
Proof.
  intro H. unfold expectedLetterOf, charAt, validChars. now rewrite H.
Qed.

(** The outcome of the comparison of the letter with the expected one. *)
Lemma letter_verdict (l expected : ascii) (msg : string -> string) :
  ((if negb (String.eqb (String l "") (String expected ""))
    then Some (msg (String expected "")) else None) = None
   <-> l = expected)
  /\ (l <> expected ->
      (if negb (String.eqb (String l "") (String expected ""))
       then Some (msg (String expected "")) else None)
      = Some (msg (String expected ""))).
Proof.
  rewrite string_eqb_single.
  destruct (Ascii.eqb l expected) eqn:E; simpl.
  - apply Ascii.eqb_eq in E. split; [tauto | congruence].
  - apply Ascii.eqb_neq in E. split; [|auto].
    split; [discriminate | contradiction].
Qed.

Lemma validateSpanishID_nif (value ds : string) (l : ascii) :
  normalize value = ds ++ String l "" ->
  String.length ds = 8%nat -> allDigits ds = true -> isUpper l = true ->
  validateSpanishID value
  = let expectedLetter := expectedLetterOf (Some (decimalValue ds)) in
    if negb (String.eqb (String l "") expectedLetter)
    then Some (nifMessage expectedLetter) else None.
Proof.
  intros Hn Hlen Hd Hl.
  assert (Hv : truthy value = true).
  { apply normalize_nonempty. rewrite Hn. apply truthy_append_char. }
  unfold validateSpanishID. rewrite Hv, Hn. cbn [negb].
  rewrite (nifRegex_shape _ _ Hlen Hd Hl).
  assert (Hsub : substring 0 8 (ds ++ String l "") = ds)
    by (rewrite <- Hlen; apply substring_0_append).
  assert (Hget : String.get 8 (ds ++ String l "") = Some l)
    by (rewrite <- Hlen; apply get_length_append).
  unfold substr, charAt. rewrite !Hsub, !Hget.
  rewrite parseInt_allDigits; auto.
  destruct ds; [discriminate | reflexivity].
Qed.

Lemma validateSpanishID_nie (value : string) (p d : ascii) (ds : string) (l : ascii) :
  normalize value = String p (ds ++ String l "") ->
  (p = "X" /\ d = "0" \/ p = "Y" /\ d = "1" \/ p = "Z" /\ d = "2")%char ->
  String.length ds = 7%nat -> allDigits ds = true -> isUpper l = true ->
  validateSpanishID value
  = let expectedLetter := expectedLetterOf (Some (decimalValue (String d ds))) in
    if negb (String.eqb (String l "") expectedLetter)
    then Some (nieMessage expectedLetter) else None.
Proof.
  intros Hn Hp Hlen Hd Hl.
  assert (Hv : truthy value = true).
  { apply normalize_nonempty. now rewrite Hn. }
  unfold validateSpanishID. rewrite Hv, Hn. cbn [negb].
  rewrite nifRegex_letter_first
    by (destruct Hp as [[-> _]|[[-> _]|[-> _]]]; reflexivity).
  rewrite nieRegex_shape; auto;
    [|destruct Hp as [[-> _]|[[-> _]|[-> _]]]; reflexivity].
  assert (Hsub : substring 1 7 (String p (ds ++ String l "")) = ds)
    by (cbn [substring]; rewrite <- Hlen; apply substring_0_append).
  assert (Hget : String.get 8 (String p (ds ++ String l "")) = Some l)
    by (cbn [String.get]; rewrite <- Hlen; apply get_length_append).
  assert (Hget0 : String.get 0 (String p (ds ++ String l "")) = Some p)
    by reflexivity.
  unfold substr, charAt. rewrite !Hsub, !Hget, !Hget0.
  assert (Hpi : forall c : ascii, allDigits (String c ds) = isDigit c)
    by (intro c; simpl; now rewrite Hd, andb_true_r).
  destruct Hp as [[-> ->]|[[-> ->]|[-> ->]]]; cbn [String.eqb Ascii.eqb Bool.eqb];
    cbn [append]; rewrite parseInt_allDigits; auto; simpl; now rewrite Hd.
Qed.

End CheckLetter.

Section CheckLetterTheorem.
Import TaxId.

Lemma stripPrefix_append (p s : string) : stripPrefix p (p ++ s) = Some s.
Proof.
  induction p as [|c p IH]; simpl; auto. now rewrite Ascii.eqb_refl.
Qed.

Lemma table_total (n : N) :
  exists c, String.get (N.to_nat (n mod 23)) "TRWAGMYFPDXBNJZSQVHLCKE" = Some c.
Proof.
  assert (H : (N.to_nat (n mod 23) < 23)%nat).
  { pose proof (N.mod_lt n 23). lia. }
  revert H. generalize (N.to_nat (n mod 23)) as k. intros k H.
  do 23 (destruct k as [|k]; [eexists; reflexivity|]). lia.
Qed.

(** What [validate] reads off a result of one of the two checks. *)
Lemma validate_view (value : string) (l expected : ascii) (nie : bool) :
  validateSpanishID value
  = (if negb (String.eqb (String l "") (String expected ""))
     then Some ((if nie then nieMessage else nifMessage) (String expected ""))
     else None) ->
  (validateSpanishID value = None <-> l = expected)
  /\ (l <> expected ->
      validateSpanishID value
      = Some ((if nie then nieMessage else nifMessage) (String expected "")))
  /\ (validate value = Valid <-> l = expected)
  /\ (l <> expected -> validate value = InvalidChecksum (String expected "")).
Proof.
  intro H.
  destruct (letter_verdict l expected (if nie then nieMessage else nifMessage))
    as [Hiff Hne].
  rewrite <- H in Hiff, Hne.
  split; [exact Hiff|]. split; [exact Hne|].
  assert (Hbad : l <> expected ->
                 validate value = InvalidChecksum (String expected "")).
  { intro Hd. unfold validate. rewrite (Hne Hd).
    destruct nie; unfold nieMessage, nifMessage.
    - reflexivity.
    - now rewrite stripPrefix_append. }
  split; [|exact Hbad].
  split.
  - intro Hv. destruct (Ascii.eqb_spec l expected) as [|Hd]; auto.
    rewrite (Hbad Hd) in Hv. discriminate.
  - intro Hl. apply Hiff in Hl. unfold validate. now rewrite Hl.
Qed.

(** C2.  When the input, upper-cased and trimmed, is eight digits and a
    letter, the result is valid exactly when the letter is the one the
    table ["TRWAGMYFPDXBNJZSQVHLCKE"] holds at position [number mod 23], and
    otherwise it is the checksum error that reports that letter.  When it is
    X, Y or Z, seven digits and a letter, the same holds for the number
    written with 0, 1 or 2 in place of the leading letter. *)
Theorem check_letter_mod_23 :
  (forall (value ds : string) (l : ascii),
      normalize value = ds ++ String l "" ->
      String.length ds = 8%nat -> allDigits ds = true -> isUpper l = true ->
      exists expected : ascii,
        String.get (N.to_nat (decimalValue ds mod 23)) "TRWAGMYFPDXBNJZSQVHLCKE"
        = Some expected
        /\ (validateSpanishID value = None <-> l = expected)
        /\ (l <> expected ->
            validateSpanishID value = Some (nifMessage (String expected "")))
        /\ (validate value = Valid <-> l = expected)
        /\ (l <> expected ->
            validate value = InvalidChecksum (String expected "")))
  /\ (forall (value : string) (p d : ascii) (ds : string) (l : ascii),
         normalize value = String p (ds ++ String l "") ->
         (p = "X" /\ d = "0" \/ p = "Y" /\ d = "1" \/ p = "Z" /\ d = "2")%char ->
         String.length ds = 7%nat -> allDigits ds = true -> isUpper l = true ->
         exists expected : ascii,
           String.get (N.to_nat (decimalValue (String d ds) mod 23))
                      "TRWAGMYFPDXBNJZSQVHLCKE"
           = Some expected
           /\ (validateSpanishID value = None <-> l = expected)
           /\ (l <> expected ->
               validateSpanishID value = Some (nieMessage (String expected "")))
           /\ (validate value = Valid <-> l = expected)
           /\ (l <> expected ->
               validate value = InvalidChecksum (String expected ""))).
Proof.
  split.
  - intros value ds l Hn Hlen Hd Hl.
    destruct (table_total (decimalValue ds)) as [expected He].
    exists expected. split; [exact He|].
    apply (validate_view value l expected false).
    rewrite (validateSpanishID_nif value ds l Hn Hlen Hd Hl).
    cbv zeta. now rewrite (expectedLetterOf_get _ _ He).
  - intros value p d ds l Hn Hp Hlen Hd Hl.
    destruct (table_total (decimalValue (String d ds))) as [expected He].
    exists expected. split; [exact He|].
    apply (validate_view value l expected true).
    rewrite (validateSpanishID_nie value p d ds l Hn Hp Hlen Hd Hl).
    cbv zeta. now rewrite (expectedLetterOf_get _ _ He).
Qed.

Lemma check_letter_mod_23_witness :
  validate " 12345678z" = Valid
  /\ validate "12345678A" = InvalidChecksum "Z"
  /\ validate "y1234567x" = Valid
  /\ validate "X1234567X" = InvalidChecksum "L".
Proof.
  destruct check_letter_mod_23 as [Hnif Hnie].
  split; [|split; [|split]].
  - destruct (Hnif " 12345678z" "12345678" "Z"%char
                   eq_refl eq_refl eq_refl eq_refl)
      as (e & He & _ & _ & Hv & _).
    apply Hv. vm_compute in He. congruence.
  - destruct (Hnif "12345678A" "12345678" "A"%char
                   eq_refl eq_refl eq_refl eq_refl)
      as (e & He & _ & _ & _ & Hv).
    vm_compute in He. injection He as <-. apply Hv. discriminate.
  - destruct (Hnie "y1234567x" "Y"%char "1"%char "1234567" "X"%char eq_refl
                   (or_intror (or_introl (conj eq_refl eq_refl)))
                   eq_refl eq_refl eq_refl)
      as (e & He & _ & _ & Hv & _).
    apply Hv. vm_compute in He. congruence.
  - destruct (Hnie "X1234567X" "X"%char "0"%char "1234567" "X"%char eq_refl
                   (or_introl (conj eq_refl eq_refl))
                   eq_refl eq_refl eq_refl)
      as (e & He & _ & _ & _ & Hv).
    vm_compute in He. injection He as <-. apply Hv. discriminate.
Defined.

End CheckLetterTheorem.

(** ** C3: inputs of no recognized shape *)

Section UnrecognizedShape.
Import TaxId.




End UnrecognizedShape.

(** ** Decimal notation *)

Section DecimalFacts.

Lemma decimalValueFrom_pos (d : Decimal.uint) (acc : positive) :
  decimalValueFrom (Npos acc) (NilEmpty.string_of_uint d)
  = Npos (Pos.of_uint_acc d acc).
Proof.
  revert acc. induction d; intro acc; cbn [NilEmpty.string_of_uint decimalValueFrom Pos.of_uint_acc];
    auto;
    match goal with
    | |- decimalValueFrom ?x _ = _ =>
        match goal with
        | |- _ = Npos (Pos.of_uint_acc _ ?p) =>
            replace x with (Npos p)
              by (match goal with
                  | |- context [digitValue ?c] =>
                      let v := eval vm_compute in (digitValue c) in
                      change (digitValue c) with v
                  end; lia)
        end
    end; apply IHd.
Qed.

Lemma decimalValueFrom_zero (d : Decimal.uint) :
  decimalValueFrom 0 (NilEmpty.string_of_uint d) = Pos.of_uint d.
Proof.
  induction d; cbn [NilEmpty.string_of_uint decimalValueFrom Pos.of_uint];
    auto;
    match goal with
    | |- decimalValueFrom ?x _ = _ =>
        let v := eval vm_compute in x in change x with v
    end;
    try apply decimalValueFrom_pos; try exact IHd.
Qed.

Lemma decimalValue_toString (n : N) : decimalValue (toString n) = n.
Proof.
  unfold decimalValue, toString. rewrite decimalValueFrom_zero.
  apply DecimalN.Unsigned.of_to.
Qed.

Lemma allDigits_string_of_uint (d : Decimal.uint) :
  allDigits (NilEmpty.string_of_uint d) = true.
Proof. induction d; simpl; auto. Qed.

Lemma allDigits_toString (n : N) : allDigits (toString n) = true.
Proof. apply allDigits_string_of_uint. Qed.

Lemma truthy_toString (n : N) : truthy (toString n) = true.
Proof.
  unfold toString.
  destruct (N.to_uint n) eqn:E; try reflexivity.
  pose proof (DecimalN.Unsigned.of_to n) as H. rewrite E in H.
  simpl in H. subst n. discriminate.
Qed.

Lemma parseInt_toString (n : N) : parseInt (toString n) = Some n.
Proof.
  rewrite parseInt_allDigits.
  - now rewrite decimalValue_toString.
  - apply allDigits_toString.
  - apply truthy_toString.
Qed.

End DecimalFacts.

(** ** Document numbering *)

Section SequencerFacts.
Import Sequencer.

Variable yearFull : N.
Variable ty : InvoiceType.

Lemma string_append_assoc (a b c : string) : (a ++ b) ++ c = a ++ (b ++ c).
Proof. induction a as [|x a IH]; simpl; auto. now rewrite IH. Qed.

Lemma matchNumber_allDigits (p yy s g : string) :
  matchNumber p yy s = Some g -> allDigits g = true /\ truthy g = true.
Proof.
  unfold matchNumber. destruct (stripPrefix _ s) as [rest|]; [|discriminate].
  destruct (truthy rest) eqn:Et; [|discriminate].
  destruct (allDigits rest) eqn:Ea; [|discriminate].
  simpl. intro H. injection H as <-. auto.
Qed.

Lemma matchNumber_format (n : N) :
  matchNumber (prefixOf ty) (yearShortOf yearFull) (formatNumber ty yearFull n)
  = Some (toString n).
Proof.
  unfold matchNumber, formatNumber.
  replace (prefixOf ty ++ "-" ++ yearShortOf yearFull ++ "-" ++ toString n)
    with ((prefixOf ty ++ "-" ++ yearShortOf yearFull ++ "-") ++ toString n)
    by (now rewrite !string_append_assoc).
  rewrite stripPrefix_append.
  now rewrite truthy_toString, allDigits_toString.
Qed.

Lemma InvoiceType_eqb_eq (a b : InvoiceType) :
  InvoiceType_eqb a b = true <-> a = b.
Proof. destruct a, b; simpl; split; congruence. Qed.

Lemma InvoiceType_eqb_refl (a : InvoiceType) : InvoiceType_eqb a a = true.
Proof. now destruct a. Qed.

(** The step of the [reduce] takes the larger of the running maximum and
    the suffix of the record. *)
Lemma maxStep_suffix (max : N) (i : Invoice) :
  InvoiceType_eqb (type i) ty = true ->
  maxStep (prefixOf ty) (yearShortOf yearFull) max i
  = N.max max (suffixOf yearFull ty i).
Proof.
  intro Ht. unfold maxStep, suffixOf. rewrite Ht.
  destruct (matchNumber _ _ (number i)) as [g|] eqn:E.
  - destruct (matchNumber_allDigits _ _ _ _ E) as [Ha Hn].
    now rewrite (parseInt_allDigits g Ha Hn).
  - now rewrite N.max_0_r.
Qed.

Lemma suffixOf_irrelevant (i : Invoice) :
  isRelevant yearFull ty i = false -> suffixOf yearFull ty i = 0%N.
Proof.
  unfold isRelevant, suffixOf, testNumber.
  destruct (InvoiceType_eqb (type i) ty); auto.
  now destruct (matchNumber _ _ (number i)).
Qed.

Lemma fold_maxStep (l : list Invoice) (acc : N) :
  fold_left (maxStep (prefixOf ty) (yearShortOf yearFull))
            (filter (isRelevant yearFull ty) l) acc
  = N.max acc (maxSuffix yearFull ty l).
Proof.
  revert acc. induction l as [|i r IH]; intro acc; simpl.
  - now rewrite N.max_0_r.
  - destruct (isRelevant yearFull ty i) eqn:E; simpl.
    + rewrite IH, maxStep_suffix.
      * now rewrite N.max_assoc.
      * unfold isRelevant in E. now apply andb_true_iff in E.
    + rewrite IH, (suffixOf_irrelevant _ E). now rewrite N.max_0_l.
Qed.

(** The maximum of the source is the largest suffix. *)
Lemma maxSeq_maxSuffix (l : list Invoice) :
  maxSeq l yearFull ty = maxSuffix yearFull ty l.
Proof.
  unfold maxSeq, relevantInvoices.
  change (fun i => InvoiceType_eqb (type i) ty
                   && testNumber (prefixOf ty) (yearShortOf yearFull) (number i))
    with (isRelevant yearFull ty).
  rewrite fold_maxStep. apply N.max_0_l.
Qed.

Lemma maxSuffix_app (l1 l2 : list Invoice) :
  maxSuffix yearFull ty (l1 ++ l2)
  = N.max (maxSuffix yearFull ty l1) (maxSuffix yearFull ty l2).
Proof.
  induction l1 as [|i r IH]; simpl.
  - now rewrite N.max_0_l.
  - now rewrite IH, N.max_assoc.
Qed.

Lemma maxSuffix_insert (l1 l2 : list Invoice) (r : Invoice) :
  maxSuffix yearFull ty (l1 ++ r :: l2)
  = N.max (suffixOf yearFull ty r) (maxSuffix yearFull ty (l1 ++ l2)).
Proof. rewrite !maxSuffix_app. simpl. lia. Qed.

Lemma maxSuffix_upper (l : list Invoice) (i : Invoice) :
  In i l -> (suffixOf yearFull ty i <= maxSuffix yearFull ty l)%N.
Proof.
  induction l as [|j r IH]; simpl; [contradiction|].
  intros [->|H]; [|specialize (IH H)]; lia.
Qed.

Lemma maxSuffix_attained (l : list Invoice) :
  maxSuffix yearFull ty l = 0%N
  \/ exists i, In i l /\ suffixOf yearFull ty i = maxSuffix yearFull ty l.
Proof.
  induction l as [|j r IH]; simpl; [now left|].
  destruct (N.max_spec (suffixOf yearFull ty j) (maxSuffix yearFull ty r))
    as [[_ ->]|[_ ->]].
  - destruct IH as [H0|(i & Hi & He)]; [now left|].
    right. exists i. split; auto.
  - right. exists j. split; auto.
Qed.

Lemma maxSuffix_none (l : list Invoice) :
  (forall i, In i l -> isRelevant yearFull ty i = false) ->
  maxSuffix yearFull ty l = 0%N.
Proof.
  induction l as [|j r IH]; simpl; auto.
  intro H. rewrite suffixOf_irrelevant, IH; auto.
Qed.

Lemma suffixOf_format (r : Invoice) (n : N) :
  type r = ty -> number r = formatNumber ty yearFull n ->
  suffixOf yearFull ty r = n.
Proof.
  intros Ht Hn. unfold suffixOf.
  rewrite Ht, InvoiceType_eqb_refl, Hn, matchNumber_format.
  apply decimalValue_toString.
Qed.

End SequencerFacts.

Section OtherYears.
Import Sequencer.

Lemma stripPrefix_same_head (p a b : string) :
  stripPrefix (p ++ a) (p ++ b) = stripPrefix a b.
Proof. induction p as [|c p IH]; simpl; auto. now rewrite Ascii.eqb_refl. Qed.

Lemma allDigits_substring (s : string) (n m : nat) :
  allDigits s = true -> allDigits (substring n m s) = true.
Proof.
  revert n m. induction s as [|c r IH]; intros n m H.
  - now destruct n, m.
  - simpl in H. apply andb_true_iff in H. destruct H as [Hc Hr].
    destruct n as [|n]; [destruct m as [|m]|]; simpl; auto.
    now rewrite Hc, IH.
Qed.

Lemma allDigits_yearShortOf (y : N) : allDigits (yearShortOf y) = true.
Proof. apply allDigits_substring, allDigits_toString. Qed.

(** Two runs of digits closed by a hyphen: one is a prefix of the other
    only when they are equal. *)
Lemma digits_then_hyphen (a b x z : string) :
  allDigits a = true -> allDigits b = true ->
  stripPrefix (a ++ "-" ++ x) (b ++ "-" ++ z) <> None -> a = b.
Proof.
  revert b. induction a as [|c a IH]; intros [|d b] Ha Hb H; auto.
  - simpl in Hb. apply andb_true_iff in Hb. destruct Hb as [Hd _].
    exfalso. apply H. cbn [append stripPrefix].
    destruct (Ascii.eqb_spec "-"%char d) as [<-|]; [discriminate Hd|reflexivity].
  - simpl in Ha. apply andb_true_iff in Ha. destruct Ha as [Hc _].
    exfalso. apply H. cbn [append stripPrefix].
    destruct (Ascii.eqb_spec c "-"%char) as [->|]; [discriminate Hc|reflexivity].
  - simpl in Ha, Hb. apply andb_true_iff in Ha, Hb.
    destruct Ha as [_ Ha], Hb as [_ Hb].
    cbn [append stripPrefix] in H.
    destruct (Ascii.eqb_spec c d) as [->|]; [|contradiction].
    f_equal. now apply IH.
Qed.

(** A number issued for a year with other final digits does not match the
    pattern of the year. *)
Lemma other_year_not_relevant (y y' n : N) (ty : InvoiceType) (r : Invoice) :
  number r = formatNumber ty y' n ->
  yearShortOf y' <> yearShortOf y ->
  isRelevant y ty r = false.
Proof.
  intros Hn Hy. unfold isRelevant, testNumber, matchNumber.
  rewrite Hn. unfold formatNumber. rewrite stripPrefix_same_head.
  cbn [append stripPrefix]. rewrite Ascii.eqb_refl.
  destruct (stripPrefix _ _) eqn:E; [|now rewrite andb_false_r].
  exfalso. apply Hy. symmetry.
  apply (digits_then_hyphen _ _ "" (toString n));
    try apply allDigits_yearShortOf.
  cbn [append]. rewrite E. discriminate.
Qed.

Lemma other_type_not_relevant (y : N) (ty : InvoiceType) (r : Invoice) :
  type r <> ty -> isRelevant y ty r = false.
Proof.
  intro H. unfold isRelevant.
  destruct (InvoiceType_eqb (type r) ty) eqn:E; auto.
  apply InvoiceType_eqb_eq in E. contradiction.
Qed.

End OtherYears.

(** ** C4 and C5: the next number *)

Section NextNumber.
Import Sequencer Examples.

Lemma calculateNextNumber_maxSuffix (l : list Invoice) (y : N) (ty : InvoiceType) :
  calculateNextNumber l y ty = formatNumber ty y (maxSuffix y ty l + 1).
Proof. unfold calculateNextNumber. now rewrite maxSeq_maxSuffix. Qed.

Lemma formatNumber_inj (ty : InvoiceType) (y n m : N) :
  formatNumber ty y n = formatNumber ty y m -> n = m.
Proof.
  intro H.
  pose proof (matchNumber_format y ty n) as Hn.
  rewrite H, matchNumber_format in Hn. injection Hn as Hn.
  rewrite <- (decimalValue_toString n), <- (decimalValue_toString m).
  now rewrite Hn.
Qed.

Lemma maxSuffix_ext (y : N) (ty : InvoiceType) (l l' : list Invoice) :
  map (fun i => (type i, number i)) l = map (fun i => (type i, number i)) l' ->
  maxSuffix y ty l = maxSuffix y ty l'.
Proof.
  revert l'. induction l as [|i r IH]; intros [|i' r'] H; simpl in *;
    try discriminate; auto.
  injection H as Ht Hn Hr.
  rewrite (IH _ Hr). unfold suffixOf. now rewrite Ht, Hn.
Qed.





End NextNumber.

(** ** Grouping with an object *)

Section GroupBy.

Context {X K V : Type}.
Variable same : K -> K -> bool.
Variable key : X -> K.
Variable init : X -> V.
Variable upd : X -> V -> V.

Hypothesis same_refl : forall k, same k k = true.
Hypothesis same_sym : forall a b, same a b = same b a.
Hypothesis same_trans :
  forall a b c, same a b = true -> same b c = true -> same a c = true.

Lemma gstep_upsert (acc : list (K * V)) (x : X) :
  gstep same key init upd acc x = upsert same (key x) (init x) (upd x) acc.
Proof.
  unfold gstep. induction acc as [|[k' v] r IH]; simpl.
  - now rewrite same_refl.
  - destruct (same k' (key x)) eqn:E.
    + simpl. now rewrite E.
    + destruct (objGet same (key x) r) eqn:G.
      * simpl. rewrite E. now rewrite <- IH.
      * unfold objAdd in *. simpl. rewrite E. now rewrite <- IH.
Qed.

Lemma upsert_new_key (k : K) (v0 : V) (f : V -> V) (acc : list (K * V)) (e : K * V) :
  In e (upsert same k v0 f acc) ->
  (exists e', In e' acc /\ fst e' = fst e) \/ (fst e = k /\ objGet same k acc = None).
Proof.
  induction acc as [|[k' v] r IH]; simpl.
  - intros [<-|[]]. now right.
  - destruct (same k' k).
    + intros [<-|H]; left.
      * exists (k', v). auto.
      * exists e. auto.
    + intros [<-|H].
      * left. exists (k', v). auto.
      * destruct (IH H) as [(e' & He' & Hf)|Hk]; [|now right].
        left. exists e'. auto.
Qed.

Lemma objGet_None (k : K) (acc : list (K * V)) :
  objGet same k acc = None <-> forall e, In e acc -> same (fst e) k = false.
Proof.
  induction acc as [|[k' v] r IH]; simpl.
  - split; auto. intros _ e [].
  - destruct (same k' k) eqn:E.
    + split; [discriminate|]. intro H. specialize (H (k', v) (or_introl eq_refl)).
      simpl in H. congruence.
    + rewrite IH. split.
      * intros H e [<-|He]; auto.
      * intros H e He. apply H. now right.
Qed.

Lemma distinctKeys_upsert (k : K) (v0 : V) (f : V -> V) (acc : list (K * V)) :
  distinctKeys same acc -> distinctKeys same (upsert same k v0 f acc).
Proof.
  unfold distinctKeys.
  induction acc as [|[k' v] r IH]; intro H; simpl.
  - repeat constructor.
  - inversion H as [|a l Hall Hr]; subst.
    destruct (same k' k) eqn:E.
    + constructor; auto.
    + constructor; [|now apply IH].
      apply Forall_forall. intros e He. simpl.
      destruct (upsert_new_key _ _ _ _ _ He) as [(e' & He' & Hf)|[Hf _]].
      * rewrite <- Hf. rewrite Forall_forall in Hall. now apply (Hall e').
      * now rewrite Hf.
Qed.

(** What an entry of the object is after one more record. *)
Lemma upsert_In_inv (x : X) (acc : list (K * V)) (k : K) (v : V) :
  distinctKeys same acc ->
  In (k, v) (upsert same (key x) (init x) (upd x) acc) ->
  (In (k, v) acc /\ same k (key x) = false)
  \/ (exists v', In (k, v') acc /\ same k (key x) = true /\ v = upd x v')
  \/ (k = key x /\ v = upd x (init x) /\ objGet same (key x) acc = None).
Proof.
  unfold distinctKeys.
  induction acc as [|[k' v'] r IH]; intros Hd H; simpl in *.
  - destruct H as [H|[]]. injection H as <- <-. right. right. auto.
  - inversion Hd as [|a l Hall Hr]; subst.
    destruct (same k' (key x)) eqn:E.
    + destruct H as [H|H].
      * injection H as <- <-. right. left. exists v'. auto.
      * left. split; [now right|].
        rewrite Forall_forall in Hall. specialize (Hall _ H). simpl in Hall.
        destruct (same k (key x)) eqn:E2; auto.
        rewrite (same_trans k' (key x) k E) in Hall; [discriminate|].
        now rewrite same_sym.
    + destruct H as [H|H].
      * injection H as <- <-. left. auto.
      * destruct (IH Hr H) as [[Hin Hs]|[(w & Hin & Hs & Hv)|(Hk & Hv & Hn)]].
        -- left. auto.
        -- right. left. exists w. auto.
        -- right. right. auto.
Qed.

Lemma upsert_has_key (x : X) (acc : list (K * V)) :
  exists e, In e (upsert same (key x) (init x) (upd x) acc)
            /\ same (fst e) (key x) = true.
Proof.
  induction acc as [|[k' v'] r IH]; simpl.
  - exists (key x, upd x (init x)). split; [now left|]. apply same_refl.
  - destruct (same k' (key x)) eqn:E.
    + exists (k', upd x v'). split; [now left|]. exact E.
    + destruct IH as (e & He & Hs). exists e. split; [now right|exact Hs].
Qed.

Lemma upsert_keeps_key (x : X) (acc : list (K * V)) (e : K * V) :
  In e acc ->
  exists e', In e' (upsert same (key x) (init x) (upd x) acc) /\ fst e' = fst e.
Proof.
  induction acc as [|[k' v'] r IH]; simpl; [contradiction|].
  intros [<-|H].
  - destruct (same k' (key x)).
    + exists (k', upd x v'). split; [now left|reflexivity].
    + exists (k', v'). split; [now left|reflexivity].
  - destruct (same k' (key x)).
    + exists e. split; [now right|reflexivity].
    + destruct (IH H) as (e' & He' & Hf). exists e'. split; [now right|exact Hf].
Qed.

Lemma groups_snoc (l : list X) (x : X) :
  groups same key init upd (l ++ [x]) = upsert same (key x) (init x) (upd x) (groups same key init upd l).
Proof. unfold groups. rewrite fold_left_app. simpl. apply gstep_upsert. Qed.

Lemma groups_distinct (l : list X) : distinctKeys same (groups same key init upd l).
Proof.
  induction l as [|x l IH] using rev_ind.
  - constructor.
  - rewrite groups_snoc. now apply distinctKeys_upsert.
Qed.

(** Every record finds its group. *)
Lemma groups_complete (l : list X) (x : X) :
  In x l -> exists e, In e (groups same key init upd l) /\ same (fst e) (key x) = true.
Proof.
  induction l as [|y l IH] using rev_ind; [contradiction|].
  rewrite groups_snoc. intro H. apply in_app_or in H.
  destruct H as [H|[<-|[]]].
  - destruct (IH H) as (e & He & Hs).
    destruct (upsert_keeps_key y _ _ He) as (e' & He' & Hf).
    exists e'. split; auto. now rewrite Hf.
  - apply upsert_has_key.
Qed.

Lemma find_app_found {A} (p : A -> bool) (l1 l2 : list A) (a : A) :
  find p l1 = Some a -> find p (l1 ++ l2) = Some a.
Proof.
  induction l1 as [|b l1 IH]; simpl; [discriminate|].
  destruct (p b); auto.
Qed.

Lemma find_app_none {A} (p : A -> bool) (l1 l2 : list A) :
  find p l1 = None -> find p (l1 ++ l2) = find p l2.
Proof.
  induction l1 as [|b l1 IH]; simpl; auto.
  destruct (p b); [discriminate|auto].
Qed.

Lemma filter_none {A} (p : A -> bool) (l : list A) :
  find p l = None -> filter p l = [].
Proof.
  induction l as [|b l IH]; simpl; auto.
  destruct (p b); [discriminate|auto].
Qed.

(** An entry of the object holds the key of the first record of its group
    and the value that the records of the group build, in their order. *)
Lemma groups_sound (l : list X) (k : K) (v : V) :
  In (k, v) (groups same key init upd l) ->
  exists x0, find (sameAs same key k) l = Some x0
             /\ key x0 = k
             /\ v = groupValue init upd x0 (filter (sameAs same key k) l).
Proof.
  revert k v. induction l as [|x l IH] using rev_ind; intros k v H.
  - contradiction.
  - rewrite groups_snoc in H.
    destruct (upsert_In_inv x _ k v (groups_distinct l) H)
      as [[Hin Hs]|[(v' & Hin & Hs & Hv)|(Hk & Hv & Hn)]].
    + destruct (IH _ _ Hin) as (x0 & Hf & Hk & Hv).
      exists x0. split; [now apply find_app_found|]. split; auto.
      rewrite filter_app. simpl. unfold sameAs at 2. rewrite Hs.
      now rewrite List.app_nil_r.
    + destruct (IH _ _ Hin) as (x0 & Hf & Hk & Hv').
      exists x0. split; [now apply find_app_found|]. split; auto.
      rewrite filter_app. simpl. unfold sameAs at 2. rewrite Hs.
      unfold groupValue. rewrite fold_left_app. simpl.
      subst v'. exact Hv.
    + subst k.
      assert (Hnone : find (sameAs same key (key x)) l = None).
      { destruct (find (sameAs same key (key x)) l) as [y|] eqn:Ef; auto.
        apply find_some in Ef. destruct Ef as [Hy Hsy].
        destruct (groups_complete l y Hy) as (e & He & Hse).
        rewrite objGet_None in Hn. specialize (Hn e He).
        unfold sameAs in Hsy.
        rewrite (same_trans (fst e) (key y) (key x) Hse) in Hn;
          [discriminate|]. now rewrite same_sym. }
      exists x. split.
      * rewrite find_app_none by exact Hnone. simpl. unfold sameAs.
        now rewrite same_refl.
      * split; auto. rewrite filter_app, (filter_none _ _ Hnone). simpl.
        unfold sameAs. now rewrite same_refl.
Qed.

End GroupBy.

(** ** Comparisons of [num] *)

Section OrderFacts.
Local Open Scope num_scope.

Ltac q_hyps :=
  repeat match goal with
    | H : Qle_bool _ _ = true |- _ => apply Qle_bool_iff in H
    | H : Qle_bool _ _ = false |- _ => apply Qlt_bool_false_iff_neg in H
    end.

Lemma gt_sub_zero (a b : num) : gt (a - b) zero = gt a b.
Proof.
  destruct a as [p| | |], b as [q| | |]; simpl; auto.
  unfold Qlt_bool. f_equal.
  destruct (Qle_bool (p + - q) 0) eqn:E1, (Qle_bool p q) eqn:E2; auto;
    exfalso; q_hyps; lra.
Qed.

Lemma gt_trans (a b c : num) :
  gt a b = true -> gt b c = true -> gt a c = true.
Proof.
  destruct a as [p| | |], b as [q| | |], c as [r| | |]; simpl; auto;
    try discriminate.
  rewrite !Qlt_bool_iff. lra.
Qed.

Lemma gt_total (a b : num) :
  a <> NaN -> b <> NaN ->
  sameKey a b = false -> gt b a = false -> gt a b = true.
Proof.
  destruct a as [p| | |], b as [q| | |]; simpl; try discriminate;
    try congruence; auto.
  intros _ _ Hk Hg. apply Qlt_bool_iff.
  apply Qlt_bool_false_iff in Hg.
  destruct (Qeq_bool p q) eqn:E; [discriminate|].
  apply Qeq_bool_neq in E. lra.
Qed.

Lemma sameKey_refl (a : num) : sameKey a a = true.
Proof. destruct a; simpl; auto. apply Qeq_bool_iff. reflexivity. Qed.

Lemma sameKey_sym (a b : num) : sameKey a b = sameKey b a.
Proof.
  destruct a as [p| | |], b as [q| | |]; simpl; auto.
  destruct (Qeq_bool p q) eqn:E1, (Qeq_bool q p) eqn:E2; auto.
  - apply Qeq_bool_iff in E1. apply Qeq_bool_neq in E2. exfalso. apply E2. now symmetry.
  - apply Qeq_bool_iff in E2. apply Qeq_bool_neq in E1. exfalso. apply E1. now symmetry.
Qed.

Lemma sameKey_trans (a b c : num) :
  sameKey a b = true -> sameKey b c = true -> sameKey a c = true.
Proof.
  destruct a as [p| | |], b as [q| | |], c as [r| | |]; simpl; auto;
    try discriminate.
  rewrite !Qeq_bool_iff. intros H1 H2. now rewrite H1.
Qed.

#[export] Instance gt_Proper : Proper (num_eq ==> num_eq ==> eq) gt.
Proof.
  intros a a' Ha b b' Hb.
  destruct a as [p| | |], a' as [p'| | |]; cbn [num_eq] in Ha;
    try contradiction;
    destruct b as [q| | |], b' as [q'| | |]; cbn [num_eq] in Hb;
    try contradiction;
    cbn [gt]; auto.
  unfold Qlt_bool. f_equal.
  destruct (Qle_bool p q) eqn:E1, (Qle_bool p' q') eqn:E2; auto;
    exfalso; q_hyps; lra.
Qed.

End OrderFacts.

(** ** The sort *)

Section SortFacts.
Local Open Scope num_scope.
Import TaxModels.

Context {A : Type}.
Variable r : A -> num.

Lemma insertBy_In (x z : A) (l : list A) :
  In z (insertBy (byDescending r) x l) <-> z = x \/ In z l.
Proof.
  induction l as [|y l IH]; simpl.
  - intuition.
  - destruct (gt (byDescending r y x) zero); simpl; [intuition|].
    rewrite IH. intuition.
Qed.

Lemma fold_insert_In (l acc : list A) (z : A) :
  In z (fold_left (fun sorted x => insertBy (byDescending r) x sorted) l acc)
  <-> In z l \/ In z acc.
Proof.
  revert acc. induction l as [|x l IH]; intro acc; simpl.
  - intuition.
  - rewrite IH, insertBy_In. intuition.
Qed.

Lemma sortBy_In (l : list A) (z : A) : In z (sortBy (byDescending r) l) <-> In z l.
Proof. unfold sortBy. rewrite fold_insert_In. simpl. intuition. Qed.

Lemma sumBy_insertBy (f : A -> num) (x : A) (l : list A) :
  sumBy f (insertBy (byDescending r) x l) === f x + sumBy f l.
Proof.
  induction l as [|y l IH]; cbn [insertBy].
  - now rewrite sumBy_cons.
  - destruct (gt (byDescending r y x) zero).
    + now rewrite (sumBy_cons f x).
    + rewrite !sumBy_cons, IH. aac_reflexivity.
Qed.

Lemma sumBy_fold_insert (f : A -> num) (l acc : list A) :
  sumBy f (fold_left (fun sorted x => insertBy (byDescending r) x sorted) l acc)
  === sumBy f l + sumBy f acc.
Proof.
  revert acc. induction l as [|x l IH]; intro acc; cbn [fold_left].
  - rewrite sumBy_nil. aac_reflexivity.
  - rewrite IH, sumBy_insertBy, sumBy_cons. aac_reflexivity.
Qed.

Lemma sumBy_sortBy (f : A -> num) (l : list A) :
  sumBy f (sortBy (byDescending r) l) === sumBy f l.
Proof.
  unfold sortBy. rewrite sumBy_fold_insert, sumBy_nil. aac_reflexivity.
Qed.

Lemma insertBy_descending (x : A) (l : list A) :
  descending r l -> descending r (insertBy (byDescending r) x l).
Proof.
  unfold descending.
  induction l as [|y l IH]; intro H; simpl.
  - repeat constructor.
  - inversion H as [|a l' Hall Hr]; subst.
    unfold byDescending at 1. rewrite gt_sub_zero.
    destruct (gt (r x) (r y)) eqn:E.
    + constructor; [|exact H].
      constructor.
      * destruct (gt (r y) (r x)) eqn:E2; auto.
        pose proof (gt_trans _ _ _ E E2) as Hxx.
        destruct (r x); simpl in Hxx; try discriminate.
        apply Qlt_bool_iff in Hxx. lra.
      * apply Forall_forall. intros z Hz.
        rewrite Forall_forall in Hall. specialize (Hall z Hz).
        destruct (gt (r z) (r x)) eqn:E2; auto.
        now rewrite (gt_trans _ _ _ E2 E) in Hall.
    + constructor; [|now apply IH].
      apply Forall_forall. intros z Hz. apply insertBy_In in Hz.
      destruct Hz as [->|Hz]; auto.
      rewrite Forall_forall in Hall. now apply Hall.
Qed.

Lemma sortBy_descending (l : list A) : descending r (sortBy (byDescending r) l).
Proof.
  unfold sortBy.
  assert (H : descending r []) by constructor.
  revert H. generalize (@nil A) as acc.
  induction l as [|x l IH]; intros acc H; simpl; auto.
  apply IH. now apply insertBy_descending.
Qed.

(** A symmetric relation that holds between the elements of a list holds
    between them after the sort. *)
Lemma insertBy_pairs (R : A -> A -> Prop) (x : A) (l : list A) :
  (forall a b, R a b -> R b a) ->
  Forall (R x) l -> ForallOrdPairs R l ->
  ForallOrdPairs R (insertBy (byDescending r) x l).
Proof.
  intros Hsym. induction l as [|y l IH]; intros Hx H; simpl.
  - repeat constructor.
  - destruct (gt (byDescending r y x) zero).
    + now constructor.
    + inversion H as [|a l' Hall Hr]; subst.
      inversion Hx as [|a l' Hxy Hxl]; subst.
      constructor; [|now apply IH].
      apply Forall_forall. intros z Hz. apply insertBy_In in Hz.
      destruct Hz as [->|Hz]; auto.
      rewrite Forall_forall in Hall. now apply Hall.
Qed.

Lemma fold_insert_pairs (R : A -> A -> Prop) (l acc : list A) :
  (forall a b, R a b -> R b a) ->
  ForallOrdPairs R l -> ForallOrdPairs R acc ->
  (forall a b, In a acc -> In b l -> R a b) ->
  ForallOrdPairs R (fold_left (fun sorted x => insertBy (byDescending r) x sorted) l acc).
Proof.
  intro Hsym. revert acc.
  induction l as [|x l IH]; intros acc Hl Hacc Hcross; simpl; auto.
  inversion Hl as [|a l' Hxl Hr]; subst.
  apply IH; auto.
  - apply insertBy_pairs; auto.
    apply Forall_forall. intros a Ha. apply Hsym, Hcross; simpl; auto.
  - intros a b Ha Hb. apply insertBy_In in Ha. destruct Ha as [->|Ha].
    + rewrite Forall_forall in Hxl. now apply Hxl.
    + apply Hcross; simpl; auto.
Qed.

Lemma sortBy_pairs (R : A -> A -> Prop) (l : list A) :
  (forall a b, R a b -> R b a) ->
  ForallOrdPairs R l -> ForallOrdPairs R (sortBy (byDescending r) l).
Proof.
  intros Hsym H. unfold sortBy.
  apply fold_insert_pairs; auto; [constructor|].
  intros a b [].
Qed.

End SortFacts.

(** ** C7: the breakdown of Model 390 *)

Section Desglose.
Local Open Scope num_scope.
Import TaxModels.

Lemma desgloseSoportadoOf_groups (expenses : list Invoice) :
  desgloseSoportadoOf expenses
  = groups sameKey ivaRate (fun _ => mkDesglose zero zero)
      (fun inv d => mkDesglose (base d + baseAmount inv) (quota d + ivaAmount inv))
      expenses.
Proof. reflexivity. Qed.

Lemma desglose_value (l : list Invoice) (d : Desglose) :
  let v := fold_left
             (fun v x => mkDesglose (base v + baseAmount x) (quota v + ivaAmount x))
             l d in
  base v = fold_left (fun s x => s + baseAmount x) l (base d)
  /\ quota v = fold_left (fun s x => s + ivaAmount x) l (quota d).
Proof.
  revert d. induction l as [|x l IH]; intro d; simpl; auto.
Qed.

(** One more expense adds its amounts to the totals of the object. *)
Lemma desgloseStep_sums (acc : list (num * Desglose)) (inv : Invoice) :
  sumBy (fun e => quota (snd e)) (desgloseStep acc inv)
  === sumBy (fun e => quota (snd e)) acc + ivaAmount inv
  /\ sumBy (fun e => base (snd e)) (desgloseStep acc inv)
     === sumBy (fun e => base (snd e)) acc + baseAmount inv.
Proof.
  change (desgloseStep acc inv)
    with (gstep sameKey ivaRate (fun _ => mkDesglose zero zero)
            (fun inv d => mkDesglose (base d + baseAmount inv)
                                     (quota d + ivaAmount inv)) acc inv).
  rewrite (gstep_upsert _ _ _ _ sameKey_refl).
  induction acc as [|[k v] r [IHq IHb]]; cbn [upsert].
  - rewrite !sumBy_cons, !sumBy_nil. cbn [snd quota base]. split; aac_reflexivity.
  - destruct (sameKey k (ivaRate inv)).
    + rewrite !sumBy_cons. cbn [snd quota base]. split; aac_reflexivity.
    + rewrite !sumBy_cons, IHq, IHb. cbn [snd quota base]. split; aac_reflexivity.
Qed.

Lemma desglose_fold_sums (l : list Invoice) (acc : list (num * Desglose)) :
  sumBy (fun e => quota (snd e)) (fold_left desgloseStep l acc)
  === sumBy (fun e => quota (snd e)) acc + sumBy ivaAmount l
  /\ sumBy (fun e => base (snd e)) (fold_left desgloseStep l acc)
     === sumBy (fun e => base (snd e)) acc + sumBy baseAmount l.
Proof.
  revert acc. induction l as [|x l IH]; intro acc; cbn [fold_left].
  - rewrite !sumBy_nil. split; aac_reflexivity.
  - destruct (IH (desgloseStep acc x)) as [Hq Hb].
    destruct (desgloseStep_sums acc x) as [Sq Sb].
    rewrite Hq, Hb, Sq, Sb, !sumBy_cons. split; aac_reflexivity.
Qed.

Lemma sumBy_map {A B : Type} (f : B -> num) (g : A -> B) (l : list A) :
  sumBy f (map g l) = sumBy (fun a => f (g a)) l.
Proof.
  unfold sumBy. generalize zero.
  induction l as [|a l IH]; intro acc; simpl; auto.
Qed.

Lemma ForallOrdPairs_map {A B : Type} (R : B -> B -> Prop) (g : A -> B)
  (l : list A) :
  ForallOrdPairs (fun a b => R (g a) (g b)) l -> ForallOrdPairs R (map g l).
Proof.
  induction 1 as [|a l Ha Hl IH]; simpl; constructor; auto.
  apply Forall_forall. intros b Hb. apply in_map_iff in Hb.
  destruct Hb as (a' & <- & Ha'). rewrite Forall_forall in Ha. now apply Ha.
Qed.

Lemma ForallOrdPairs_and {A : Type} (R1 R2 : A -> A -> Prop) (l : list A) :
  ForallOrdPairs R1 l -> ForallOrdPairs R2 l ->
  ForallOrdPairs (fun a b => R1 a b /\ R2 a b) l.
Proof.
  induction 1 as [|a l Ha Hl IH]; intro H2; [constructor|].
  inversion H2 as [|a' l' Ha2 Hl2]; subst.
  constructor; auto.
  rewrite Forall_forall in *. intros b Hb. split; auto.
Qed.

Lemma ForallOrdPairs_StronglySorted {A : Type} (R : A -> A -> Prop) (l : list A) :
  ForallOrdPairs R l -> StronglySorted R l.
Proof. induction 1; constructor; auto. Qed.

Lemma ForallOrdPairs_impl_In {A : Type} (R1 R2 : A -> A -> Prop) (l : list A) :
  (forall a b, In a l -> In b l -> R1 a b -> R2 a b) ->
  ForallOrdPairs R1 l -> ForallOrdPairs R2 l.
Proof.
  intros H Hl. induction Hl as [|a l Ha Hl IH]; [constructor|].
  constructor.
  - rewrite Forall_forall in *. intros b Hb. apply H; simpl; auto.
  - apply IH. intros x y Hx Hy. apply H; simpl; auto.
Qed.

End Desglose.

Section DesgloseTheorem.
Local Open Scope num_scope.
Import TaxModels Examples.


End DesgloseTheorem.

Section DesgloseExamples.
Local Open Scope num_scope.
Import TaxModels Examples.


End DesgloseExamples.

(** ** C6: Model 347 *)

Section Model347.
Local Open Scope num_scope.
Import TaxModels Examples.

Lemma string_eqb_sym (a b : string) : String.eqb a b = String.eqb b a.
Proof.
  destruct (String.eqb_spec a b) as [->|H].
  - now rewrite String.eqb_refl.
  - symmetry. apply String.eqb_neq. congruence.
Qed.

Lemma string_eqb_trans (a b c : string) :
  String.eqb a b = true -> String.eqb b c = true -> String.eqb a c = true.
Proof. rewrite !String.eqb_eq. congruence. Qed.

Lemma operationsByNifOf_groups (ys : list Invoice) :
  operationsByNifOf ys
  = groups String.eqb nif
      (fun curr => mkOp347 (entityName curr) zero (type curr))
      (fun curr d => mkOp347 (op_name d) (op_total d + abs (totalAmount curr))
                             (op_type d))
      (filter notInherited ys).
Proof.
  unfold operationsByNifOf, groups. generalize (@nil (string * Op347)).
  induction ys as [|x ys IH]; intro acc; simpl; auto.
  unfold operationsStep at 2, notInherited.
  destruct (inheritedKey (nif x)); simpl; apply IH.
Qed.

Lemma op_value (l : list Invoice) (d : Op347) :
  let v := fold_left
             (fun v x => mkOp347 (op_name v) (op_total v + abs (totalAmount x))
                                 (op_type v))
             l d in
  op_name v = op_name d /\ op_type v = op_type d
  /\ op_total v = fold_left (fun s x => s + abs (totalAmount x)) l (op_total d).
Proof.
  revert d. induction l as [|x l IH]; intro d; simpl; auto.
  destruct (IH (mkOp347 (op_name d) (op_total d + abs (totalAmount x))
                        (op_type d))) as (H1 & H2 & H3).
  simpl in H1, H2, H3. auto.
Qed.

Lemma filter_nif_notInherited (k : string) (ys : list Invoice) :
  inheritedKey k = false ->
  filter (fun x => String.eqb k (nif x)) (filter notInherited ys)
  = filter (fun x => String.eqb k (nif x)) ys.
Proof.
  intro Hk. induction ys as [|x ys IH]; simpl; auto.
  unfold notInherited at 1.
  destruct (String.eqb_spec k (nif x)) as [->|Hne].
  - rewrite Hk. simpl. rewrite String.eqb_refl. now rewrite IH.
  - destruct (inheritedKey (nif x)); simpl; auto.
    destruct (String.eqb_spec k (nif x)); [contradiction|auto].
Qed.

Lemma find_nif_notInherited (k : string) (ys : list Invoice) :
  inheritedKey k = false ->
  find (fun x => String.eqb k (nif x)) (filter notInherited ys)
  = find (fun x => String.eqb k (nif x)) ys.
Proof.
  intro Hk. induction ys as [|x ys IH]; simpl; auto.
  unfold notInherited at 1.
  destruct (String.eqb_spec k (nif x)) as [->|Hne].
  - rewrite Hk. simpl. now rewrite String.eqb_refl.
  - destruct (inheritedKey (nif x)); simpl; auto.
    destruct (String.eqb_spec k (nif x)); [contradiction|auto].
Qed.

(** The entries of [operationsByNif]. *)
Lemma operations_sound (ys : list Invoice) (k : string) (v : Op347) :
  In (k, v) (operationsByNifOf ys) ->
  inheritedKey k = false
  /\ op_total v = totalOf k ys
  /\ exists first, find (fun x => String.eqb k (nif x)) ys = Some first
                   /\ op_name v = entityName first /\ op_type v = type first.
Proof.
  intro H. rewrite operationsByNifOf_groups in H.
  destruct (groups_sound String.eqb nif _ _
              String.eqb_refl string_eqb_sym string_eqb_trans _ k v H)
    as (x0 & Hfind & Hk & Hv).
  assert (Hinh : inheritedKey k = false).
  { apply find_some in Hfind. destruct Hfind as [Hx0 _].
    apply filter_In in Hx0. destruct Hx0 as [_ Hn].
    unfold notInherited in Hn. rewrite Hk in Hn.
    now apply negb_true_iff in Hn. }
  split; [exact Hinh|].
  unfold sameAs in *.
  change (fun x : Invoice => String.eqb k (nif x))
    with (fun x : Invoice => (k =? nif x)%string) in *.
  rewrite (find_nif_notInherited k ys Hinh) in Hfind.
  rewrite (filter_nif_notInherited k ys Hinh) in Hv.
  unfold groupValue in Hv.
  destruct (op_value (filter (fun x => String.eqb k (nif x)) ys)
              (mkOp347 (entityName x0) zero (type x0))) as (Hn & Ht & Htot).
  cbv zeta in Hn, Ht, Htot. rewrite <- Hv in Hn, Ht, Htot.
  split; [exact Htot|].
  exists x0. auto.
Qed.

Lemma operations_complete (ys : list Invoice) (x : Invoice) :
  In x ys -> inheritedKey (nif x) = false ->
  exists v, In (nif x, v) (operationsByNifOf ys).
Proof.
  intros Hx Hinh. rewrite operationsByNifOf_groups.
  assert (Hx' : In x (filter notInherited ys)).
  { apply filter_In. split; auto. unfold notInherited. now rewrite Hinh. }
  destruct (groups_complete String.eqb nif
              (fun curr => mkOp347 (entityName curr) zero (type curr))
              (fun curr d => mkOp347 (op_name d)
                                     (op_total d + abs (totalAmount curr))
                                     (op_type d))
              String.eqb_refl _ x Hx') as ([k v] & He & Hs).
  simpl in Hs. apply String.eqb_eq in Hs. subst k. exists v. exact He.
Qed.

Lemma ForallOrdPairs_filter {A : Type} (R : A -> A -> Prop) (p : A -> bool)
  (l : list A) :
  ForallOrdPairs R l -> ForallOrdPairs R (filter p l).
Proof.
  induction 1 as [|a l Ha Hl IH]; simpl; [constructor|].
  destruct (p a); auto. constructor; auto.
  rewrite Forall_forall in *. intros b Hb.
  apply filter_In in Hb. now apply Ha.
Qed.

Lemma ForallOrdPairs_NoDup {A : Type} (l : list A) :
  ForallOrdPairs (fun a b => a <> b) l -> NoDup l.
Proof.
  induction 1 as [|a l Ha Hl IH]; constructor; auto.
  intro Hin. rewrite Forall_forall in Ha. now apply (Ha a Hin).
Qed.

Lemma operations_NoDup (ys : list Invoice) (p : string * Op347 -> bool) :
  NoDup (map fst (filter p (operationsByNifOf ys))).
Proof.
  apply ForallOrdPairs_NoDup, ForallOrdPairs_map, ForallOrdPairs_filter.
  rewrite operationsByNifOf_groups.
  pose proof (groups_distinct String.eqb nif
                (fun curr => mkOp347 (entityName curr) zero (type curr))
                (fun curr d => mkOp347 (op_name d)
                                       (op_total d + abs (totalAmount curr))
                                       (op_type d))
                String.eqb_refl (filter notInherited ys)) as H.
  unfold distinctKeys in H.
  eapply ForallOrdPairs_impl_In; [|exact H].
  intros a b _ _ Hab. now apply String.eqb_neq.
Qed.

End Model347.

Section Model347Theorem.
Local Open Scope num_scope.
Import TaxModels Examples.




End Model347Theorem.

(** ** C9: amounts that are not finite *)

Section NonFinite.
Local Open Scope num_scope.
Import TaxModels Examples.

Lemma isFinite_add_iff (a b : num) :
  isFinite (a + b) = true <-> isFinite a = true /\ isFinite b = true.
Proof. destruct a, b; simpl; intuition discriminate. Qed.

Lemma isFinite_sub_iff (a b : num) :
  isFinite (a - b) = true <-> isFinite a = true /\ isFinite b = true.
Proof. destruct a, b; simpl; intuition discriminate. Qed.

Lemma fold_sum_finite_iff {A : Type} (f : A -> num) (l : list A) (acc : num) :
  isFinite (fold_left (fun sum i => sum + f i) l acc) = true
  <-> isFinite acc = true /\ forall i, In i l -> isFinite (f i) = true.
Proof.
  revert acc. induction l as [|x l IH]; intro acc; simpl.
  - intuition.
  - rewrite IH, isFinite_add_iff. split.
    + intros [[Ha Hx] Hl]. split; auto. intros i [<-|Hi]; auto.
    + intros [Ha Hl]. repeat split; auto.
Qed.

(** A sum is finite exactly when all its terms are. *)
Lemma sumBy_finite_iff {A : Type} (f : A -> num) (l : list A) :
  isFinite (sumBy f l) = true <-> forall i, In i l -> isFinite (f i) = true.
Proof.
  unfold sumBy. rewrite fold_sum_finite_iff. simpl. intuition.
Qed.

Lemma cuotaDe_finite (r : num) : isFinite r = true -> isFinite (cuotaDe r) = true.
Proof.
  destruct r; try discriminate. intros _. unfold cuotaDe.
  destruct (gt (Fin q) zero); reflexivity.
Qed.

Lemma isFinite_abs_eq (a : num) : isFinite (abs a) = isFinite a.
Proof. now destruct a. Qed.

Lemma sub_NaN_r (a : num) : a - NaN = NaN.
Proof. now destruct a. Qed.




End NonFinite.

(** ** C8 and C10: the write paths and the check of duplicates *)

Section StoreFacts.
Import Store Examples.

Lemma withId_fields (e : string) (i : Invoice) :
  id (withId e i) = e /\ number (withId e i) = number i
  /\ type (withId e i) = type i.
Proof. now destruct i. Qed.

(** The search finds nothing exactly when no stored record with another id
    has the type and the number of the draft. *)
Lemma findDuplicate_None (invoices : store) (d : Invoice) :
  findDuplicate invoices d = None <-> noOtherWithNumber invoices d.
Proof.
  unfold findDuplicate, noOtherWithNumber. split.
  - intros H i Hi Hn Ht.
    pose proof (find_none _ _ H i Hi) as Hf. cbv beta in Hf.
    rewrite Hn, Ht, String.eqb_refl, InvoiceType_eqb_refl in Hf.
    cbn [andb] in Hf. apply negb_false_iff, String.eqb_eq in Hf. exact Hf.
  - intro H.
    destruct (find _ invoices) as [i|] eqn:E; auto.
    apply find_some in E. destruct E as [Hi Hc].
    apply andb_true_iff in Hc. destruct Hc as [Hc Hid].
    apply andb_true_iff in Hc. destruct Hc as [Hn Ht].
    apply String.eqb_eq in Hn. apply InvoiceType_eqb_eq in Ht.
    apply negb_true_iff, String.eqb_neq in Hid.
    exfalso. apply Hid. now apply H.
Qed.

Lemma findDuplicate_Some (invoices : store) (d : Invoice) :
  (exists dup, findDuplicate invoices d = Some dup)
  <-> exists i, In i invoices /\ number i = number d /\ type i = type d
                /\ id i <> id d.
Proof.
  split.
  - intros (dup & H). unfold findDuplicate in H.
    apply find_some in H. destruct H as [Hi Hc].
    apply andb_true_iff in Hc. destruct Hc as [Hc Hid].
    apply andb_true_iff in Hc. destruct Hc as [Hn Ht].
    apply String.eqb_eq in Hn. apply InvoiceType_eqb_eq in Ht.
    apply negb_true_iff, String.eqb_neq in Hid.
    exists dup. auto.
  - intros (i & Hi & Hn & Ht & Hid).
    destruct (findDuplicate invoices d) as [dup|] eqn:E; [now exists dup|].
    apply findDuplicate_None in E. exfalso. apply Hid. now apply E.
Qed.

End StoreFacts.

Section StoreTheorems.
Import Store Examples.

(** The path of the form keeps the invariant: a new record is appended
    only when no stored record has its type and number. *)
Lemma submit_create_keeps_unique (invoices : store) (nifError : option string)
  (uuid : string) (form : Invoice) (confirmed : bool) :
  uniqueNumbers invoices ->
  ~ In uuid (map id invoices) ->
  uniqueNumbers (snd (handleSubmit invoices nifError None uuid form confirmed)).
Proof.
  intros Hu Hfresh. unfold handleSubmit.
  destruct nifError; [exact Hu|].
  destruct (findDuplicate invoices (withId uuid form)) eqn:E; [exact Hu|].
  cbn [snd]. unfold uniqueNumbers in *.
  rewrite map_app. cbn [map].
  apply findDuplicate_None in E.
  destruct (withId_fields uuid form) as (Hid & Hn & Ht).
  apply NoDup_app; auto.
  - repeat constructor. intros [].
  - intros k Hin [<-|[]]. apply in_map_iff in Hin.
    destruct Hin as (i & Hk & Hi). injection Hk as Hti Hni.
    apply Hfresh. apply in_map_iff. exists i. split; [|exact Hi].
    rewrite <- Hid. apply E; congruence.
Qed.

End StoreTheorems.

Section StoreClaims.
Import Store Examples.

Lemma twins_reachable : reachable twins.
Proof.
  apply (reachable_step [numbered "id-1" INCOME "A-25-1"]).
  - apply (reachable_step []); [constructor|].
    exact (step_submit [] None None "id-1" (numbered "id-1" INCOME "A-25-1") true).
  - exact (step_bulk_import [numbered "id-1" INCOME "A-25-1"]
             [numbered "id-2" INCOME "A-25-1"] true).
Qed.

(** C8: the path of the form rejects a second [A-25-1] of the type, and
    the bulk import appends it without any check, so that a store with two
    records of one type and one number is reached. *)
Theorem bulk_import_admits_duplicate :
  let first := numbered "id-1" INCOME "A-25-1" in
  let again := numbered "id-2" INCOME "A-25-1" in
  handleSubmit [] None None "id-1" first true = (Created, [first])
  /\ handleSubmit [first] None None "id-2" again true
     = (DuplicateRejected, [first])
  /\ handleBulkImport [first] [again] true = [first; again]
  /\ reachable [first; again]
  /\ hasDuplicate [first; again]
  /\ ~ uniqueNumbers [first; again].
Proof.
  intros first again.
  split; [reflexivity|]. split; [reflexivity|]. split; [reflexivity|].
  split.
  - exact twins_reachable.
  - split.
    + exists 0%nat, 1%nat, first, again.
      repeat split; try reflexivity. discriminate.
    + unfold uniqueNumbers. cbn [map]. intro H.
      apply NoDup_cons_iff in H. destruct H as [H _].
      apply H. left. reflexivity.
Qed.




End StoreClaims.

(** * Further properties of the write paths *)

Section SuggestedNumber.
Import Store Sequencer Examples.

Lemma next_number_not_stored (l : list Invoice) (y : N) (ty : InvoiceType)
  (i : Invoice) :
  In i l -> type i = ty -> number i <> calculateNextNumber l y ty.
Proof.
  intros Hi Ht Hn.
  rewrite calculateNextNumber_maxSuffix in Hn.
  pose proof (suffixOf_format y ty i _ Ht Hn) as Hs.
  pose proof (maxSuffix_upper y ty l i Hi) as Hu.
  lia.
Qed.



End SuggestedNumber.

Section CreateThenDelete.
Import Store Sequencer Examples.

Lemma confirmDelete_absent (invoices : store) (ident : string) :
  ~ In ident (map id invoices) -> confirmDelete invoices ident = invoices.
Proof.
  unfold confirmDelete. induction invoices as [|i r IH]; simpl; auto.
  intro H. destruct (String.eqb_spec (id i) ident) as [E|E].
  - exfalso. apply H. now left.
  - simpl. rewrite IH; auto.
Qed.

Lemma confirmDelete_app (a b : store) (ident : string) :
  confirmDelete (a ++ b)%list ident
  = (confirmDelete a ident ++ confirmDelete b ident)%list.
Proof. unfold confirmDelete. apply filter_app. Qed.

(** X2.  A save that creates a record followed by the deletion of the new
    identifier gives the store back, whatever the save did; the number
    proposed next is then the one proposed before, so the number of a
    deleted last record is proposed again. *)
Theorem create_then_delete
  (invoices : store) (nifError : option string) (uuid : string)
  (form : Invoice) (confirmed : bool) :
  ~ In uuid (map id invoices) ->
  let saved := snd (handleSubmit invoices nifError None uuid form confirmed) in
  confirmDelete saved uuid = invoices
  /\ forall y ty,
      calculateNextNumber (confirmDelete saved uuid) y ty
      = calculateNextNumber invoices y ty.
Proof.
  intros Hfresh saved.
  assert (H : confirmDelete saved uuid = invoices).
  { subst saved. unfold handleSubmit.
    destruct nifError; [now apply confirmDelete_absent|].
    destruct (findDuplicate invoices (withId uuid form));
      [now apply confirmDelete_absent|].
    cbn [snd]. rewrite confirmDelete_app, confirmDelete_absent by exact Hfresh.
    unfold confirmDelete. cbn [filter].
    destruct (withId_fields uuid form) as (Hid & _).
    rewrite Hid, String.eqb_refl. cbn [negb]. apply List.app_nil_r. }
  split; [exact H|]. intros y ty. now rewrite H.
Qed.

Lemma create_then_delete_witness :
  confirmDelete
    (snd (handleSubmit ledger25 None None "new"
            (numbered "" INCOME "A-25-6") true)) "new"
  = ledger25.
Proof.
  apply (create_then_delete ledger25 None "new" (numbered "" INCOME "A-25-6") true).
  cbn. intros [H|[H|[]]]; discriminate H.
Defined.

End CreateThenDelete.

Section FormInvariant.
Import Store FormPaths Examples.

Lemma NoDup_map_filter {A B : Type} (key : A -> B) (keep : A -> bool)
  (records : list A) (Hkeys : NoDup (map key records)) :
  NoDup (map key (filter keep records)).
Proof.
  induction records as [|a l IH]; simpl; auto.
  simpl in Hkeys. apply NoDup_cons_iff in Hkeys. destruct Hkeys as [Hn Hl].
  destruct (keep a); simpl; auto.
  constructor; auto.
  intro Hin. apply Hn. apply in_map_iff in Hin.
  destruct Hin as (x & Hx & Hf). apply filter_In in Hf.
  apply in_map_iff. exists x. tauto.
Qed.

(** The replacement of the record under edit. *)
Lemma edit_map_absent (e : string) (d : Invoice) (l : store) :
  ~ In e (map id l) ->
  map (fun inv => if String.eqb (id inv) e then d else inv) l = l.
Proof.
  induction l as [|a l IH]; simpl; auto.
  intro H. destruct (String.eqb_spec (id a) e) as [E|E].
  - exfalso. apply H. now left.
  - rewrite IH; auto.
Qed.

Lemma edit_map_ids (e : string) (d : Invoice) (l : store) :
  id d = e ->
  map id (map (fun inv => if String.eqb (id inv) e then d else inv) l)
  = map id l.
Proof.
  intro Hd. induction l as [|a l IH]; simpl; auto.
  rewrite IH. destruct (String.eqb_spec (id a) e) as [E|E]; congruence.
Qed.

Lemma edit_map_unique (e : string) (d : Invoice) (l : store) :
  NoDup (map id l) -> uniqueNumbers l ->
  (forall i, In i l -> number i = number d -> type i = type d -> id i = e) ->
  uniqueNumbers (map (fun inv => if String.eqb (id inv) e then d else inv) l).
Proof.
  unfold uniqueNumbers.
  induction l as [|a l IH]; simpl; intros Hid Hu Hd; auto.
  apply NoDup_cons_iff in Hid. destruct Hid as [Hida Hidl].
  apply NoDup_cons_iff in Hu. destruct Hu as [Hua Hul].
  destruct (String.eqb_spec (id a) e) as [E|E].
  - rewrite edit_map_absent by congruence.
    constructor; auto.
    intro Hin. apply in_map_iff in Hin. destruct Hin as (i & Hk & Hi).
    injection Hk as Ht Hn.
    apply Hida. rewrite E. apply in_map_iff. exists i. split; auto.
  - constructor.
    + intro Hin. apply in_map_iff in Hin. destruct Hin as (x & Hk & Hx).
      apply in_map_iff in Hx. destruct Hx as (i & Hx & Hi).
      injection Hk as Ht Hn.
      destruct (String.eqb (id i) e); subst x.
      * apply E. apply Hd; auto.
      * apply Hua. apply in_map_iff. exists i. split; auto. congruence.
    + apply IH; auto.
Qed.

Lemma formStep_invariant (s s' : store) :
  formStep s s' ->
  uniqueNumbers s /\ NoDup (map id s) ->
  uniqueNumbers s' /\ NoDup (map id s').
Proof.
  intros Hstep [Hu Hid]. destruct Hstep as
    [invoices nifError uuid form confirmed Hfresh
    |invoices nifError e uuid form confirmed
    |invoices invoiceToDelete
    |invoices selectedIds].
  - split; [now apply submit_create_keeps_unique|].
    unfold handleSubmit. destruct nifError; auto.
    destruct (findDuplicate invoices (withId uuid form)); auto.
    cbn [snd]. rewrite map_app. cbn [map].
    destruct (withId_fields uuid form) as (Hi & _). rewrite Hi.
    apply NoDup_app; auto.
    + repeat constructor. intros [].
    + intros k Hk [<-|[]]. contradiction.
  - unfold handleSubmit. destruct nifError; auto.
    destruct (findDuplicate invoices (withId e form)) eqn:E; auto.
    destruct confirmed; auto. cbn [snd].
    destruct (withId_fields e form) as (Hi & _).
    split.
    + apply edit_map_unique; auto.
      apply findDuplicate_None in E. intros i Hin Hn Ht.
      rewrite <- Hi. now apply E.
    + now rewrite edit_map_ids.
  - split; unfold uniqueNumbers, confirmDelete; now apply NoDup_map_filter.
  - split; unfold uniqueNumbers, confirmBulkDelete; now apply NoDup_map_filter.
Qed.

(** X3.  As long as no bulk import takes place, the store keeps its
    invariant: saves through the form (creations under fresh identifiers,
    and edits) and deletions never produce two records with one type and
    one number, nor two records with one identifier. *)
Theorem form_paths_keep_unique (s : store) :
  reachableByForm s -> uniqueNumbers s /\ NoDup (map id s).
Proof.
  induction 1 as [|s s' Hs IH Hstep].
  - split; constructor.
  - now apply (formStep_invariant s s').
Qed.

Lemma form_paths_keep_unique_witness :
  uniqueNumbers [numbered "id-1" INCOME "A-25-1"]
  /\ NoDup (map id [numbered "id-1" INCOME "A-25-1"]).
Proof.
  apply form_paths_keep_unique.
  apply (byForm_step []); [constructor|].
  exact (form_create [] None "id-1" (numbered "" INCOME "A-25-1") true
           (fun H => H)).
Defined.

End FormInvariant.

(** * Further properties of the tax models *)

Section Model190.
Local Open Scope num_scope.
Import TaxModels Examples.

Lemma model190_groups (l : list Invoice) :
  fold_left model190Step l []
  = groups String.eqb nif
      (fun curr => mkItem190 (entityName curr) (nif curr) zero zero)
      (fun curr d => mkItem190 (i190_name d) (i190_nif d)
                               (i190_base d + baseAmount curr)
                               (i190_retention d + irpfAmount curr))
      (filter notInherited l).
Proof.
  unfold groups. generalize (@nil (string * Item190)).
  induction l as [|x l IH]; intro acc; simpl; auto.
  unfold model190Step at 2, notInherited.
  destruct (inheritedKey (nif x)); simpl; apply IH.
Qed.

Lemma item190_value (l : list Invoice) (d : Item190) :
  let v := fold_left
             (fun v x => mkItem190 (i190_name v) (i190_nif v)
                                   (i190_base v + baseAmount x)
                                   (i190_retention v + irpfAmount x))
             l d in
  i190_name v = i190_name d /\ i190_nif v = i190_nif d
  /\ i190_base v = fold_left (fun s x => s + baseAmount x) l (i190_base d)
  /\ i190_retention v
     = fold_left (fun s x => s + irpfAmount x) l (i190_retention d).
Proof.
  revert d. induction l as [|x l IH]; intro d; simpl; auto.
  destruct (IH (mkItem190 (i190_name d) (i190_nif d)
                          (i190_base d + baseAmount x)
                          (i190_retention d + irpfAmount x)))
    as (H1 & H2 & H3 & H4).
  simpl in H1, H2, H3, H4. auto.
Qed.

Lemma model190Step_sums (acc : list (string * Item190)) (x : Invoice) :
  inheritedKey (nif x) = false ->
  sumBy (fun e => i190_retention (snd e)) (model190Step acc x)
  === sumBy (fun e => i190_retention (snd e)) acc + irpfAmount x
  /\ sumBy (fun e => i190_base (snd e)) (model190Step acc x)
     === sumBy (fun e => i190_base (snd e)) acc + baseAmount x.
Proof.
  intro Hinh. unfold model190Step. rewrite Hinh.
  change (objUpdate String.eqb (nif x) _ _)
    with (gstep String.eqb nif
            (fun curr => mkItem190 (entityName curr) (nif curr) zero zero)
            (fun curr d => mkItem190 (i190_name d) (i190_nif d)
                                     (i190_base d + baseAmount curr)
                                     (i190_retention d + irpfAmount curr))
            acc x).
  rewrite (gstep_upsert _ _ _ _ String.eqb_refl).
  induction acc as [|[k v] r [IHq IHb]]; cbn [upsert].
  - rewrite !sumBy_cons, !sumBy_nil. cbn [snd i190_retention i190_base].
    split; aac_reflexivity.
  - destruct (String.eqb k (nif x)).
    + rewrite !sumBy_cons. cbn [snd i190_retention i190_base].
      split; aac_reflexivity.
    + rewrite !sumBy_cons, IHq, IHb. cbn [snd].
      split; aac_reflexivity.
Qed.

Lemma model190_fold_sums (l : list Invoice) (acc : list (string * Item190)) :
  (forall x, In x l -> inheritedKey (nif x) = false) ->
  sumBy (fun e => i190_retention (snd e)) (fold_left model190Step l acc)
  === sumBy (fun e => i190_retention (snd e)) acc + sumBy irpfAmount l
  /\ sumBy (fun e => i190_base (snd e)) (fold_left model190Step l acc)
     === sumBy (fun e => i190_base (snd e)) acc + sumBy baseAmount l.
Proof.
  revert acc. induction l as [|x l IH]; intros acc H; cbn [fold_left].
  - rewrite !sumBy_nil. split; aac_reflexivity.
  - destruct (IH (model190Step acc x)) as [Hq Hb];
      [intros y Hy; apply H; now right|].
    destruct (model190Step_sums acc x) as [Sq Sb]; [apply H; now left|].
    rewrite Hq, Hb, Sq, Sb, !sumBy_cons. split; aac_reflexivity.
Qed.

(** A sum skips the terms that are zero. *)
Lemma sumBy_filter_positive {A : Type} (f : A -> num) (l : list A) :
  (forall x, In x l -> gt (f x) zero = false -> f x === zero) ->
  sumBy f (filter (fun x => gt (f x) zero) l) === sumBy f l.
Proof.
  induction l as [|x l IH]; intro H; [reflexivity|].
  rewrite sumBy_filter_cons, sumBy_cons, IH by (intros y Hy; apply H; now right).
  destruct (gt (f x) zero) eqn:E; [reflexivity|].
  rewrite (H x (or_introl eq_refl) E). reflexivity.
Qed.

End Model190.

Section Model190Theorem.
Local Open Scope num_scope.
Import TaxModels Examples.

Lemma model190_sound (l : list Invoice) (k : string) (v : Item190) :
  In (k, v) (fold_left model190Step l []) ->
  inheritedKey k = false
  /\ i190_nif v = k
  /\ i190_base v = sumBy baseAmount (groupOf k l)
  /\ i190_retention v = sumBy irpfAmount (groupOf k l)
  /\ exists first, find (fun x => String.eqb k (nif x)) l = Some first
                   /\ i190_name v = entityName first.
Proof.
  intro H. rewrite model190_groups in H.
  destruct (groups_sound String.eqb nif _ _
              String.eqb_refl string_eqb_sym string_eqb_trans _ k v H)
    as (x0 & Hfind & Hk & Hv).
  assert (Hinh : inheritedKey k = false).
  { apply find_some in Hfind. destruct Hfind as [Hx0 _].
    apply filter_In in Hx0. destruct Hx0 as [_ Hn].
    unfold notInherited in Hn. rewrite Hk in Hn.
    now apply negb_true_iff in Hn. }
  split; [exact Hinh|].
  unfold sameAs in *.
  change (fun x : Invoice => String.eqb k (nif x))
    with (fun x : Invoice => (k =? nif x)%string) in *.
  rewrite (find_nif_notInherited k l Hinh) in Hfind.
  rewrite (filter_nif_notInherited k l Hinh) in Hv.
  unfold groupValue in Hv.
  destruct (item190_value (filter (fun x => String.eqb k (nif x)) l)
              (mkItem190 (entityName x0) (nif x0) zero zero))
    as (Hn & Hi & Hb & Hr).
  cbv zeta in Hn, Hi, Hb, Hr. rewrite <- Hv in Hn, Hi, Hb, Hr.
  cbn [i190_name i190_nif i190_base i190_retention] in Hn, Hi, Hb, Hr.
  split; [congruence|]. split; [exact Hb|]. split; [exact Hr|].
  exists x0. auto.
Qed.



End Model190Theorem.

Section CurrentQuarter.
Local Open Scope num_scope.
Import TaxModels Examples.

(** X5.  The quarter that [generatePDFReport] computes from the month of
    the clock is one of 1 to 4 and its window of three months holds that
    month: a record dated in month [m] of the year falls in the quarter
    computed for [m] and in no other, and the report lists that quarter
    together with the ones before it, and none after it. *)
Theorem current_quarter_window (m : Month) :
  let cq := currentQuarterOf m in
  In cq [1; 2; 3; 4]%Z
  /\ ((cq - 1) * 3 <= monthIndex m <= (cq - 1) * 3 + 2)%Z
  /\ (forall q, In q (quarters cq) <-> In q [1; 2; 3; 4]%Z /\ (q <= cq)%Z)
  /\ (forall (year : Z) (inv : Invoice) (q : Z),
         date inv = ValidDate year m -> In q [1; 2; 3; 4]%Z ->
         (inQuarter year q inv = true <-> q = cq)).
Proof.
  intro cq. subst cq.
  split; [destruct m; cbn; tauto|].
  split; [destruct m; cbn; lia|].
  split.
  { intro q. unfold quarters. rewrite filter_In, Z.leb_le. reflexivity. }
  intros year inv q Hd Hq. unfold inQuarter. rewrite Hd.
  cbn [getFullYear getMonth]. rewrite Z.eqb_refl. cbn [andb].
  cbn in Hq. destruct Hq as [<-|[<-|[<-|[<-|[]]]]]; destruct m; cbn;
    split; intro H; try reflexivity; try discriminate H.
Qed.

End CurrentQuarter.

(** * Further properties of the validation of tax ids *)

Section CaseAndShape.
Import TaxId NifField Store.

Lemma upperChar_idempotent (c : ascii) : upperChar (upperChar c) = upperChar c.
Proof. destruct c as [[] [] [] [] [] [] [] []]; reflexivity. Qed.

Lemma toUpperCase_idempotent (s : string) :
  toUpperCase (toUpperCase s) = toUpperCase s.
Proof.
  induction s as [|c r IH]; simpl; auto.
  now rewrite upperChar_idempotent, IH.
Qed.

Lemma validateSpanishID_toUpperCase (value : string) :
  validateSpanishID (toUpperCase value) = validateSpanishID value.
Proof.
  unfold validateSpanishID, normalize.
  now rewrite toUpperCase_truthy, toUpperCase_idempotent.
Qed.

Lemma cif_first_char (p : ascii) :
  inString p "ABCDEFGHJKLMNPQRSUVW" = true ->
  isDigit p = false /\ inString p "XYZ" = false.
Proof.
  destruct p as [[] [] [] [] [] [] [] []]; cbn; intro H;
    try discriminate H; split; reflexivity.
Qed.

(** X6.  An input that, upper-cased and trimmed, has the shape of a CIF is
    accepted whatever its last character is among 0 to 9 and A to J: no
    control character is computed, so the function never reports a
    checksum error for it. *)
Theorem cif_shape_is_accepted (value : string) :
  cifRegex (normalize value) = true ->
  validateSpanishID value = None
  /\ nifRegex (normalize value) = false
  /\ nieRegex (normalize value) = false.
Proof.
  intro H.
  assert (Hd : nifRegex (normalize value) = false
               /\ nieRegex (normalize value) = false).
  { destruct (normalize value) as [|p r]; [discriminate H|].
    unfold cifRegex in H. cbn [app matchClasses] in H.
    apply andb_true_iff in H. destruct H as [Hp _].
    destruct (cif_first_char p Hp) as [Hdig Hxyz].
    unfold nifRegex, nieRegex. cbn [repeat app matchClasses].
    now rewrite Hdig, Hxyz. }
  destruct Hd as [Hnif Hnie]. split; [|auto].
  unfold validateSpanishID. destruct (truthy value); [|reflexivity].
  cbn [negb]. now rewrite Hnif, Hnie, H.
Qed.

Lemma cif_shape_is_accepted_witness :
  validateSpanishID "b12345678" = None
  /\ validateSpanishID "B1234567J" = None.
Proof.
  split.
  - apply (cif_shape_is_accepted "b12345678"). reflexivity.
  - apply (cif_shape_is_accepted "B1234567J"). reflexivity.
Defined.



End CaseAndShape.

Section DigitErrors.
Import TaxId.

Lemma table_inj (i j : nat) (c : ascii) :
  (i < 23)%nat -> (j < 23)%nat ->
  String.get i "TRWAGMYFPDXBNJZSQVHLCKE" = Some c ->
  String.get j "TRWAGMYFPDXBNJZSQVHLCKE" = Some c ->
  i = j.
Proof.
  intros Hi Hj Gi Gj. rewrite <- Gj in Gi. clear Gj c.
  do 23 (destruct i as [|i];
         [ do 23 (destruct j as [|j];
                  [ cbn in Gi; first [reflexivity | discriminate Gi] |]);
           exfalso; lia |]).
  exfalso; lia.
Qed.

Lemma allDigits_app (a b : string) :
  allDigits (a ++ b) = allDigits a && allDigits b.
Proof.
  induction a as [|c r IH]; cbn; auto. now rewrite IH, andb_assoc.
Qed.

Lemma length_app (a b : string) :
  String.length (a ++ b) = (String.length a + String.length b)%nat.
Proof. induction a as [|c r IH]; cbn; auto. Qed.

Lemma digitValue_bound (c : ascii) :
  isDigit c = true -> (digitValue c < 10)%N.
Proof.
  unfold isDigit, digitValue. intro H. apply andb_true_iff in H.
  destruct H as [H1 H2]. apply Nat.leb_le in H1, H2. lia.
Qed.

Lemma digitValue_inj (c c' : ascii) :
  isDigit c = true -> isDigit c' = true ->
  digitValue c = digitValue c' -> c = c'.
Proof.
  unfold isDigit, digitValue. intros H H' E.
  apply andb_true_iff in H, H'.
  destruct H as [H1 H2], H' as [H1' H2'].
  apply Nat.leb_le in H1, H2, H1', H2'.
  assert (En : nat_of_ascii c = nat_of_ascii c') by lia.
  rewrite <- (ascii_nat_embedding c), <- (ascii_nat_embedding c').
  now rewrite En.
Qed.

Lemma decimalValueFrom_app (acc : N) (a b : string) :
  decimalValueFrom acc (a ++ b) = decimalValueFrom (decimalValueFrom acc a) b.
Proof. revert acc. induction a as [|c r IH]; intro acc; cbn; auto. Qed.

Lemma decimalValueFrom_shift (acc : N) (b : string) :
  Z.of_N (decimalValueFrom acc b)
  = (Z.of_N acc * 10 ^ Z.of_nat (String.length b)
     + Z.of_N (decimalValue b))%Z.
Proof.
  unfold decimalValue. revert acc.
  induction b as [|c r IH]; intro acc.
  - cbn. lia.
  - cbn [decimalValueFrom String.length].
    rewrite IH, (IH (10 * 0 + digitValue c)%N).
    rewrite Nat2Z.inj_succ, Z.pow_succ_r by lia. lia.
Qed.

Lemma prime_23_divides_power (d : Z) (k : nat) :
  ((23 | d * 10 ^ Z.of_nat k) -> (23 | d))%Z.
Proof.
  intro H. apply (Z.gauss 23 (10 ^ Z.of_nat k) d).
  - now rewrite Z.mul_comm.
  - apply Z.coprime_pow_r; [lia | reflexivity].
Qed.

Lemma small_multiple_of_23 (d : Z) :
  (-10 < d < 10)%Z -> (23 | d)%Z -> d = 0%Z.
Proof. intros Hd [q Hq]. lia. Qed.

(** The letter is right exactly when it is the entry of the table at the
    remainder of the eight digits. *)
Lemma dni_valid_iff (value ds : string) (l : ascii) :
  normalize value = ds ++ String l "" ->
  String.length ds = 8%nat -> allDigits ds = true -> isUpper l = true ->
  (validateSpanishID value = None
   <-> String.get (N.to_nat (decimalValue ds mod 23)) validChars = Some l).
Proof.
  intros Hn Hlen Hd Hl.
  rewrite (validateSpanishID_nif value ds l Hn Hlen Hd Hl). cbv zeta.
  destruct (table_total (decimalValue ds)) as [e He].
  rewrite (expectedLetterOf_get _ _ He).
  unfold validChars. rewrite He.
  destruct (letter_verdict l e nifMessage) as [Hv _]. rewrite Hv.
  split; congruence.
Qed.

Lemma same_letter_same_remainder (ds ds' : string) (l : ascii) :
  String.get (N.to_nat (decimalValue ds mod 23)) validChars = Some l ->
  String.get (N.to_nat (decimalValue ds' mod 23)) validChars = Some l ->
  (23 | Z.of_N (decimalValue ds) - Z.of_N (decimalValue ds'))%Z.
Proof.
  intros H H'.
  assert (E : N.to_nat (decimalValue ds mod 23)
              = N.to_nat (decimalValue ds' mod 23)).
  { apply (table_inj _ _ l); auto.
    - pose proof (N.mod_lt (decimalValue ds) 23). lia.
    - pose proof (N.mod_lt (decimalValue ds') 23). lia. }
  apply N2Nat.inj in E.
  apply Z.mod_divide; [lia|]. apply Z.cong_iff_0.
  change 23%Z with (Z.of_N 23). rewrite <- !N2Z.inj_mod. now rewrite E.
Qed.

(** X8.  The letter of a DNI detects every error in one digit and every
    exchange of two neighbouring digits: when an identifier of eight digits
    and a letter is accepted, the identifier with one digit replaced by a
    different one, or with two different neighbouring digits exchanged,
    and the same letter, is rejected. *)
Theorem dni_letter_detects_digit_errors
  (value value' ds ds' : string) (l : ascii) :
  normalize value = ds ++ String l "" ->
  normalize value' = ds' ++ String l "" ->
  String.length ds = 8%nat -> allDigits ds = true ->
  allDigits ds' = true -> isUpper l = true ->
  (exists a c c' b,
      ds = a ++ String c b /\ ds' = a ++ String c' b /\ c <> c')
  \/ (exists a x y b,
         ds = a ++ String x (String y b)
         /\ ds' = a ++ String y (String x b) /\ x <> y) ->
  validateSpanishID value = None ->
  validateSpanishID value' <> None.
Proof.
  intros Hn Hn' Hlen Hd Hd' Hl Hshape Hok Hok'.
  assert (Hlen' : String.length ds' = 8%nat).
  { destruct Hshape as [(a & c & c' & b & E & E' & _)
                       |(a & x & y & b & E & E' & _)];
      subst ds ds'; rewrite length_app in *; cbn in *; lia. }
  apply (dni_valid_iff value ds l Hn Hlen Hd Hl) in Hok.
  apply (dni_valid_iff value' ds' l Hn' Hlen' Hd' Hl) in Hok'.
  pose proof (same_letter_same_remainder ds ds' l Hok Hok') as Hdiv.
  clear Hok Hok' Hn Hn'.
  destruct Hshape as [(a & c & c' & b & E & E' & Hne)
                     |(a & x & y & b & E & E' & Hne)]; subst ds ds'.
  - rewrite allDigits_app in Hd, Hd'. cbn in Hd, Hd'.
    apply andb_true_iff in Hd, Hd'.
    destruct Hd as [_ Hd], Hd' as [_ Hd'].
    apply andb_true_iff in Hd, Hd'.
    destruct Hd as [Hc _], Hd' as [Hc' _].
    apply Hne, digitValue_inj; auto.
    pose proof (digitValue_bound c Hc). pose proof (digitValue_bound c' Hc').
    unfold decimalValue in Hdiv.
    rewrite !decimalValueFrom_app in Hdiv. cbn [decimalValueFrom] in Hdiv.
    rewrite (decimalValueFrom_shift _ b) in Hdiv.
    rewrite (decimalValueFrom_shift (_ + digitValue c') b) in Hdiv.
    set (A := decimalValueFrom 0 a) in *.
    assert (Hd23 : (23 | Z.of_N (digitValue c) - Z.of_N (digitValue c'))%Z).
    { apply (prime_23_divides_power _ (String.length b)).
      replace ((Z.of_N (digitValue c) - Z.of_N (digitValue c'))
               * 10 ^ Z.of_nat (String.length b))%Z
        with (Z.of_N (10 * A + digitValue c)
              * 10 ^ Z.of_nat (String.length b) + Z.of_N (decimalValue b)
              - (Z.of_N (10 * A + digitValue c')
                 * 10 ^ Z.of_nat (String.length b)
                 + Z.of_N (decimalValue b)))%Z by lia.
      exact Hdiv. }
    apply small_multiple_of_23 in Hd23; lia.
  - rewrite allDigits_app in Hd. cbn in Hd.
    apply andb_true_iff in Hd. destruct Hd as [_ Hd].
    apply andb_true_iff in Hd. destruct Hd as [Hx Hd].
    apply andb_true_iff in Hd. destruct Hd as [Hy _].
    apply Hne, digitValue_inj; auto.
    pose proof (digitValue_bound x Hx). pose proof (digitValue_bound y Hy).
    unfold decimalValue in Hdiv.
    rewrite !decimalValueFrom_app in Hdiv. cbn [decimalValueFrom] in Hdiv.
    rewrite (decimalValueFrom_shift _ b) in Hdiv.
    rewrite (decimalValueFrom_shift (_ + digitValue x) b) in Hdiv.
    set (A := decimalValueFrom 0 a) in *.
    assert (Hd23 : (23 | (Z.of_N (digitValue x) - Z.of_N (digitValue y)) * 9)%Z).
    { apply (prime_23_divides_power _ (String.length b)).
      replace ((Z.of_N (digitValue x) - Z.of_N (digitValue y)) * 9
               * 10 ^ Z.of_nat (String.length b))%Z
        with (Z.of_N (10 * (10 * A + digitValue x) + digitValue y)
              * 10 ^ Z.of_nat (String.length b) + Z.of_N (decimalValue b)
              - (Z.of_N (10 * (10 * A + digitValue y) + digitValue x)
                 * 10 ^ Z.of_nat (String.length b)
                 + Z.of_N (decimalValue b)))%Z by lia.
      exact Hdiv. }
    rewrite Z.mul_comm in Hd23.
    apply Z.gauss in Hd23; [|reflexivity].
    apply small_multiple_of_23 in Hd23; lia.
Qed.

Lemma dni_letter_detects_digit_errors_witness :
  validateSpanishID "12345678Z" = None
  /\ validateSpanishID "12345679Z" <> None
  /\ validateSpanishID "12345687Z" <> None.
Proof.
  split; [reflexivity|]. split.
  - apply (dni_letter_detects_digit_errors
             "12345678Z" "12345679Z" "12345678" "12345679" "Z"%char
             eq_refl eq_refl eq_refl eq_refl eq_refl eq_refl).
    + left. exists "1234567", "8"%char, "9"%char, "".
      repeat split. discriminate.
    + reflexivity.
  - apply (dni_letter_detects_digit_errors
             "12345678Z" "12345687Z" "12345678" "12345687" "Z"%char
             eq_refl eq_refl eq_refl eq_refl eq_refl eq_refl).
    + right. exists "123456", "7"%char, "8"%char, "".
      repeat split. discriminate.
    + reflexivity.
Defined.

End DigitErrors.

(** * The months partition the year *)

Section Months.
Import TaxModels Dashboard FiscalYearCloser.
Local Open Scope num_scope.

Lemma month_indicator (y : Z) (i : Invoice) (b : bool) (x : num) :
  (if inYear y i && b then x else zero)
  === fold_left
        (fun s m => s + (if inMonth y (Z.of_nat m) i && b then x else zero))
        (seq 0 12) zero.
Proof.
  unfold inYear, inMonth, getFullYear, getMonth.
  destruct (date i) as [|y' m]; cbn -[add zero].
  - aac_reflexivity.
  - destruct (y' =? y)%Z; cbn -[add zero].
    + destruct m; cbn -[add zero]; destruct b; aac_reflexivity.
    + destruct m; cbn -[add zero]; aac_reflexivity.
Qed.

Lemma fold_add_pointwise {B : Type} (g h : B -> num) (l : list B) (a c : num) :
  fold_left (fun s m => s + g m) l a + fold_left (fun s m => s + h m) l c
  === fold_left (fun s m => s + (g m + h m)) l (a + c).
Proof.
  revert a c. induction l as [|m l IH]; intros a c; cbn [fold_left].
  - reflexivity.
  - rewrite IH.
    assert (E : a + g m + (c + h m) === a + c + (g m + h m))
      by aac_reflexivity.
    revert E. generalize (a + g m + (c + h m)) (a + c + (g m + h m)).
    intros u v E. clear IH. revert u v E.
    induction l as [|k l IHl]; intros u v E; cbn [fold_left]; auto.
    apply IHl. now rewrite E.
Qed.

Lemma sum_year_months (f : Invoice -> num) (c : Invoice -> bool)
  (y : Z) (l : list Invoice) :
  sumBy f (filter (fun i => inYear y i && c i) l)
  === fold_left
        (fun s m =>
           s + sumBy f (filter (fun i => inMonth y (Z.of_nat m) i && c i) l))
        (seq 0 12) zero.
Proof.
  induction l as [|i r IH].
  - cbn -[add zero]. aac_reflexivity.
  - rewrite sumBy_filter_cons, IH, (month_indicator y i (c i) (f i)).
    rewrite fold_add_pointwise.
    assert (E : forall (l : list nat) (a b : num), a === b ->
               fold_left
                 (fun s m =>
                    s + ((if inMonth y (Z.of_nat m) i && c i then f i else zero)
                         + sumBy f (filter
                                      (fun i0 => inMonth y (Z.of_nat m) i0 && c i0)
                                      r))) l a
               === fold_left
                     (fun s m =>
                        s + sumBy f (filter
                                       (fun i0 => inMonth y (Z.of_nat m) i0 && c i0)
                                       (i :: r))) l b).
    { intro l0. induction l0 as [|m l0 IHl]; intros a b Hab; cbn [fold_left]; auto.
      apply IHl. rewrite sumBy_filter_cons, Hab. reflexivity. }
    apply E. aac_reflexivity.
Qed.

Lemma sumBy_rows (g : MonthRow -> num) (invoices : list Invoice) (y : Z) :
  sumBy g (monthlyData invoices y)
  === fold_left (fun s m => s + g (monthRow invoices y (Z.of_nat m)))
                (seq 0 12) zero.
Proof.
  unfold monthlyData. rewrite sumBy_map. generalize (seq 0 12). intro l.
  unfold sumBy. reflexivity.
Qed.

Lemma filter_ext_eq {B : Type} (c d : B -> bool) (l : list B) :
  (forall x, c x = d x) -> filter c l = filter d l.
Proof.
  intro H. induction l as [|x r IH]; simpl; auto. now rewrite H, IH.
Qed.

Lemma incomes_by_month (f : Invoice -> num) (invoices : list Invoice) (y : Z) :
  sumBy f (filter isIncome (filter (inYear y) invoices))
  === fold_left
        (fun s m =>
           s + sumBy f (filter (inMonth y (Z.of_nat m))
                               (filter isIncome invoices)))
        (seq 0 12) zero.
Proof.
  rewrite filter_filter, (sum_year_months f isIncome y invoices).
  cbn [seq fold_left]. rewrite !filter_filter.
  rewrite !(filter_ext_eq (fun x => isIncome x && inMonth y _ x)
                          (fun i => inMonth y _ i && isIncome i))
    by (intro x; apply andb_comm).
  reflexivity.
Qed.

Lemma expenses_by_month (f : Invoice -> num) (invoices : list Invoice) (y : Z) :
  sumBy f (filter isDeductibleExpense (filter (inYear y) invoices))
  === fold_left
        (fun s m =>
           s + sumBy f (filter (fun inv => inMonth y (Z.of_nat m) inv
                                           && isDeductible inv)
                               (filter isExpense invoices)))
        (seq 0 12) zero.
Proof.
  rewrite filter_filter, (sum_year_months f isDeductibleExpense y invoices).
  cbn [seq fold_left]. rewrite !filter_filter.
  rewrite !(filter_ext_eq
              (fun x => isExpense x && (inMonth y _ x && isDeductible x))
              (fun i => inMonth y _ i && isDeductibleExpense i))
    by (intro x; unfold isDeductibleExpense, isExpense;
        destruct (InvoiceType_eqb (type x) EXPENSE), (isDeductible x);
        cbn; rewrite ?andb_true_r, ?andb_false_r; reflexivity).
  reflexivity.
Qed.


Lemma sumBy_filter_split (f : Invoice -> num) (c d : Invoice -> bool)
  (l : list Invoice) :
  sumBy f (filter c l)
  === sumBy f (filter (fun i => d i && c i) l)
      + sumBy f (filter (fun i => negb (d i) && c i) l).
Proof.
  induction l as [|i r IH].
  - cbn -[add zero]. aac_reflexivity.
  - rewrite !sumBy_filter_cons, IH.
    destruct (d i), (c i); cbn -[add zero]; aac_reflexivity.
Qed.


End Months.

(** * The years on offer *)

Section AvailableYears.
Import TaxModels Years.

Lemma sameYear_eq (a b : option Z) : sameYear a b = true <-> a = b.
Proof.
  destruct a as [x|], b as [y|]; cbn; try (split; congruence).
  rewrite Z.eqb_eq. split; congruence.
Qed.

Lemma existsb_sameYear (y : option Z) (set : list (option Z)) :
  existsb (sameYear y) set = true <-> In y set.
Proof.
  rewrite existsb_exists. split.
  - intros (x & Hin & E). apply sameYear_eq in E. now subst.
  - intro H. exists y. split; [auto | now apply sameYear_eq].
Qed.

Lemma setAdd_In (y z : option Z) (set : list (option Z)) :
  In z (setAdd y set) <-> In z set \/ z = y.
Proof.
  unfold setAdd. destruct (existsb (sameYear y) set) eqn:E.
  - apply existsb_sameYear in E. split; [auto|]. intros [H| ->]; auto.
  - rewrite in_app_iff. cbn. intuition.
Qed.

Lemma setAdd_NoDup (y : option Z) (set : list (option Z)) :
  NoDup set -> NoDup (setAdd y set).
Proof.
  intro H. unfold setAdd. destruct (existsb (sameYear y) set) eqn:E; auto.
  assert (Hn : ~ In y set).
  { intro Hin. apply existsb_sameYear in Hin. congruence. }
  apply NoDup_app; auto.
  - repeat constructor. intros [].
  - intros a Ha [<-|[]]. contradiction.
Qed.

Lemma fold_setAdd (arr set : list (option Z)) :
  (forall z, In z (fold_left (fun s y => setAdd y s) arr set)
             <-> In z set \/ In z arr)
  /\ (NoDup set -> NoDup (fold_left (fun s y => setAdd y s) arr set)).
Proof.
  revert set. induction arr as [|y r IH]; intro set; cbn [fold_left].
  - split; [|auto]. intro z. cbn. intuition.
  - destruct (IH (setAdd y set)) as [IH1 IH2]. split.
    + intro z. rewrite IH1, setAdd_In. cbn. intuition.
    + intro H. apply IH2, setAdd_NoDup, H.
Qed.

Lemma setOf_In (arr : list (option Z)) (z : option Z) :
  In z (setOf arr) <-> In z arr.
Proof.
  unfold setOf. destruct (fold_setAdd arr []) as [H _].
  rewrite H. cbn. intuition.
Qed.

Lemma setOf_NoDup (arr : list (option Z)) : NoDup (setOf arr).
Proof. apply fold_setAdd. constructor. Qed.

Lemma NoDup_ForallOrdPairs {A : Type} (l : list A) :
  NoDup l -> ForallOrdPairs (fun a b => a <> b) l.
Proof.
  induction 1 as [|x l Hx Hl IH]; constructor; auto.
  apply Forall_forall. intros b Hb E. subst. contradiction.
Qed.

Lemma sortBy_NoDup {A : Type} (r : A -> num) (l : list A) :
  NoDup l -> NoDup (sortBy (byDescending r) l).
Proof.
  intro H. apply ForallOrdPairs_NoDup, sortBy_pairs.
  - intros a b Hab E. now apply Hab.
  - now apply NoDup_ForallOrdPairs.
Qed.

Lemma yearNum_order (x y : Z) :
  gt (yearNum (Some y)) (yearNum (Some x)) = false -> Some x <> Some y ->
  (y < x)%Z.
Proof.
  cbn. unfold Qlt_bool. intros H Hne.
  apply negb_false_iff, Qle_bool_iff in H.
  rewrite <- Zle_Qle in H.
  assert (x <> y) by congruence. lia.
Qed.

Lemma sorted_years (ys : list (option Z)) :
  NoDup ys -> ~ In None ys ->
  ForallOrdPairs
    (fun a b => match a, b with
                | Some x, Some y => (y < x)%Z
                | _, _ => False
                end)
    (sortBy (byDescending yearNum) ys).
Proof.
  intros Hnd Hnone.
  apply (ForallOrdPairs_impl_In
           (fun a b => gt (yearNum b) (yearNum a) = false /\ a <> b)).
  - intros a b Ha Hb [Hgt Hne].
    apply sortBy_In in Ha, Hb.
    destruct a as [x|]; [|contradiction].
    destruct b as [y|]; [|contradiction].
    now apply yearNum_order.
  - apply ForallOrdPairs_and.
    + apply sortBy_descending.
    + apply NoDup_ForallOrdPairs, sortBy_NoDup, Hnd.
Qed.

Lemma yearsOf_In (invoices : list Invoice) (y : option Z) :
  In y (yearsOf invoices)
  <-> exists inv, In inv invoices /\ getFullYear (date inv) = y.
Proof.
  unfold yearsOf. rewrite in_map_iff. split; intros (inv & H1 & H2); eauto.
Qed.

(** X11.  The years offered by the filter of the invoice manager are the
    year of the clock and the years of the records, each once; a record
    whose date is invalid contributes NaN.  When every date is valid the
    list is strictly decreasing.  The list of the closing of the year is
    the same without the year of the clock, so that year, which is the one
    selected at first, is on offer there only if a record is dated in
    it. *)
Theorem available_years (invoices : list Invoice) (currentYear : Z) :
  let years := availableYears invoices currentYear in
  let closer := closerAvailableYears invoices in
  (forall y, In y years
             <-> y = Some currentYear
                 \/ exists inv, In inv invoices /\ getFullYear (date inv) = y)
  /\ NoDup years
  /\ ((forall inv, In inv invoices -> date inv <> InvalidDate) ->
      ForallOrdPairs
        (fun a b => match a, b with
                    | Some x, Some y => (y < x)%Z
                    | _, _ => False
                    end) years)
  /\ (forall y, In y closer
                <-> exists inv, In inv invoices /\ getFullYear (date inv) = y)
  /\ NoDup closer
  /\ (forall y, In y closer -> In y years).
Proof.
  intros years closer. subst years closer.
  unfold availableYears, closerAvailableYears.
  assert (Hin : forall y,
             In y (sortBy (byDescending yearNum)
                          (setAdd (Some currentYear) (setOf (yearsOf invoices))))
             <-> y = Some currentYear
                 \/ exists inv, In inv invoices /\ getFullYear (date inv) = y).
  { intro y. rewrite sortBy_In, setAdd_In, setOf_In, yearsOf_In. tauto. }
  assert (Hc : forall y,
             In y (sortBy (byDescending yearNum) (setOf (yearsOf invoices)))
             <-> exists inv, In inv invoices /\ getFullYear (date inv) = y).
  { intro y. now rewrite sortBy_In, setOf_In, yearsOf_In. }
  split; [exact Hin|].
  split; [apply sortBy_NoDup, setAdd_NoDup, setOf_NoDup|].
  split.
  - intro Hvalid. apply sorted_years.
    + apply setAdd_NoDup, setOf_NoDup.
    + rewrite setAdd_In, setOf_In, yearsOf_In.
      intros [(inv & Hi & E)|E]; [|discriminate E].
      specialize (Hvalid inv Hi).
      destruct (date inv); [now apply Hvalid | discriminate E].
  - split; [exact Hc|].
    split; [apply sortBy_NoDup, setOf_NoDup|].
    intros y Hy. apply Hin. right. now apply Hc.
Qed.

Lemma available_years_witness :
  availableYears Examples.firstQuarter 2026 = [Some 2026; Some 2025]%Z
  /\ ForallOrdPairs
       (fun a b => match a, b with
                   | Some x, Some y => (y < x)%Z
                   | _, _ => False
                   end) (availableYears Examples.firstQuarter 2026).
Proof.
  split; [vm_compute; reflexivity|].
  apply (available_years Examples.firstQuarter 2026).
  intros inv Hin. cbn in Hin.
  destruct Hin as [<-|[<-|[<-|[]]]]; discriminate.
Defined.

End AvailableYears.

Section CurrentQuarterExample.
Import TaxModels.

Lemma current_quarter_window_witness :
  currentQuarterOf Aug = 3%Z
  /\ inQuarter 2025 3
       (Examples.income "i1" "A-25-1" Aug "12345678Z" "Cliente" 1000 210 150)
     = true.
Proof.
  split; [reflexivity|].
  destruct (current_quarter_window Aug) as (_ & _ & _ & H).
  apply (H 2025%Z
           (Examples.income "i1" "A-25-1" Aug "12345678Z" "Cliente" 1000 210 150)
           3%Z eq_refl).
  - cbn. tauto.
  - reflexivity.
Defined.

End CurrentQuarterExample.

(** * The fields of the CSV export *)

Section CsvFields.
Import Csv.

Lemma inString_In_quote (s : string) :
  inString quote (String quote s) = true.
Proof. reflexivity. Qed.

Lemma doubleQuotes_inj (s t : string) :
  doubleQuotes s = doubleQuotes t -> s = t.
Proof.
  revert t. induction s as [|c r IH]; intros [|d u]; cbn [doubleQuotes].
  - reflexivity.
  - destruct (Ascii.eqb d quote); discriminate.
  - destruct (Ascii.eqb c quote); discriminate.
  - destruct (Ascii.eqb c quote) eqn:Ec, (Ascii.eqb d quote) eqn:Ed; intro H.
    + apply Ascii.eqb_eq in Ec, Ed. subst. injection H as H. f_equal. auto.
    + injection H as H1 H2. apply Ascii.eqb_neq in Ed. congruence.
    + injection H as H1 H2. apply Ascii.eqb_neq in Ec. congruence.
    + injection H as H1 H2. subst. f_equal. auto.
Qed.

Lemma append_char_inj (s t : string) (c : ascii) :
  s ++ String c "" = t ++ String c "" -> s = t.
Proof.
  revert t. induction s as [|a r IH]; intros [|b u]; cbn [append]; intro H.
  - reflexivity.
  - injection H as H1 H2. destruct u; discriminate.
  - injection H as H1 H2. destruct r; discriminate.
  - injection H as H1 H2. subst. f_equal. auto.
Qed.

Lemma countChar_app (c : ascii) (s t : string) :
  countChar c (s ++ t) = (countChar c s + countChar c t)%nat.
Proof. induction s as [|d r IH]; cbn; auto. rewrite IH. lia. Qed.

Lemma countChar_doubleQuotes (s : string) :
  countChar quote (doubleQuotes s) = (2 * countChar quote s)%nat.
Proof.
  induction s as [|c r IH]; cbn [doubleQuotes countChar]; auto.
  destruct (Ascii.eqb c quote) eqn:E; cbn [countChar]; rewrite ?E, IH.
  - rewrite Ascii.eqb_refl. lia.
  - lia.
Qed.

Lemma countChar_zero (c : ascii) (s : string) :
  inString c s = false -> countChar c s = 0%nat.
Proof.
  induction s as [|d r IH]; cbn [inString countChar]; auto.
  rewrite (Ascii.eqb_sym d c).
  destruct (Ascii.eqb c d); cbn [orb]; [discriminate | auto].
Qed.

(** X12.  Two different strings give two different fields, a string
    without comma, quote or line feed is written as it is, and every
    field holds an even number of quotes, so a reader that tracks quotes
    is outside them when the field ends. *)
Theorem escapeCsv_fields (s t : string) :
  (escapeCsv (Some s) = escapeCsv (Some t) -> s = t)
  /\ (inString comma s = false -> inString quote s = false ->
      inString newline s = false -> escapeCsv (Some s) = s)
  /\ Nat.Even (countChar quote (escapeCsv (Some s)))
  /\ (escapeCsv (Some s) = s
      \/ escapeCsv (Some s)
         = String quote (doubleQuotes s ++ String quote "")).
Proof.
  split; [|split; [|split]].
  - unfold escapeCsv.
    destruct (inString comma s || inString quote s || inString newline s)
      eqn:Es;
      destruct (inString comma t || inString quote t || inString newline t)
        eqn:Et; intro H.
    + injection H as H. now apply append_char_inj, doubleQuotes_inj in H.
    + subst t. cbn [inString] in Et. rewrite Ascii.eqb_refl in Et.
      rewrite orb_true_r in Et. discriminate.
    + subst s. cbn [inString] in Es. rewrite Ascii.eqb_refl in Es.
      rewrite orb_true_r in Es. discriminate.
    + exact H.
  - intros H1 H2 H3. unfold escapeCsv. now rewrite H1, H2, H3.
  - unfold escapeCsv.
    destruct (inString comma s || inString quote s || inString newline s)
      eqn:Es.
    + cbn [countChar]. rewrite Ascii.eqb_refl, countChar_app.
      rewrite countChar_doubleQuotes. cbn [countChar].
      rewrite Ascii.eqb_refl.
      exists (S (countChar quote s)). lia.
    + apply orb_false_iff in Es. destruct Es as [Es _].
      apply orb_false_iff in Es. destruct Es as [_ Eq].
      rewrite (countChar_zero _ _ Eq). exists 0%nat. reflexivity.
  - unfold escapeCsv.
    destruct (inString comma s || inString quote s || inString newline s);
      auto.
Qed.

Lemma escapeCsv_fields_witness :
  escapeCsv (Some "Cliente") = "Cliente"
  /\ escapeCsv (Some "Bufete, S.L.") <> escapeCsv (Some "Bufete S.L.").
Proof.
  split.
  - destruct (escapeCsv_fields "Cliente" "") as (_ & H & _).
    apply H; reflexivity.
  - destruct (escapeCsv_fields "Bufete, S.L." "Bufete S.L.") as (H & _).
    intro E. specialize (H E). discriminate H.
Defined.

End CsvFields.

(** * The amounts and the dates of an imported sheet *)

Section ImportedAmounts.
Import ImportService.
Local Open Scope num_scope.

Lemma removeOthers_app (a b : string) :
  removeOthers (a ++ b) = (removeOthers a ++ removeOthers b)%string.
Proof.
  induction a as [|c r IH]; cbn [append removeOthers]; auto.
  destruct (keepNumberChar c); cbn [append]; now rewrite IH.
Qed.

Lemma removeOthers_digits (a : string) :
  allDigits a = true -> removeOthers a = a.
Proof.
  induction a as [|c r IH]; cbn [allDigits removeOthers]; auto.
  intro H. apply andb_true_iff in H. destruct H as [Hc Hr].
  unfold keepNumberChar. rewrite Hc. cbn [orb]. now rewrite IH.
Qed.

Lemma replaceFirst_digits (x y : ascii) (a r : string) :
  isDigit x = false -> allDigits a = true ->
  replaceFirst x y (a ++ r) = (a ++ replaceFirst x y r)%string.
Proof.
  intros Hx. induction a as [|c a IH]; cbn [allDigits append replaceFirst]; auto.
  intro H. apply andb_true_iff in H. destruct H as [Hc Ha].
  assert (E : Ascii.eqb c x = false).
  { apply Ascii.eqb_neq. intro E. subst. congruence. }
  rewrite E. now rewrite IH.
Qed.

Lemma spanDigits_digits (a rest : string) :
  allDigits a = true ->
  match rest with String c _ => isDigit c = false | EmptyString => True end ->
  spanDigits (a ++ rest) = (a, rest).
Proof.
  intros Ha Hrest. induction a as [|c a IH]; cbn [append].
  - destruct rest as [|c r]; cbn [spanDigits]; auto. now rewrite Hrest.
  - cbn [allDigits] in Ha. apply andb_true_iff in Ha. destruct Ha as [Hc Ha].
    cbn [spanDigits]. rewrite Hc, (IH Ha). reflexivity.
Qed.

Lemma spanDigits_all (a : string) :
  allDigits a = true -> spanDigits a = (a, EmptyString).
Proof.
  induction a as [|c a IH]; cbn [allDigits spanDigits]; auto.
  intro H. apply andb_true_iff in H. destruct H as [Hc Ha].
  now rewrite Hc, (IH Ha).
Qed.

Lemma orZero_Fin (q : Q) : orZero (Fin q) === Fin q.
Proof.
  unfold orZero. destruct (Qeq_bool q 0) eqn:E; [|reflexivity].
  apply Qeq_bool_iff in E. cbn. now rewrite E.
Qed.

(** The value read from digits, a point or nothing, and digits. *)
Lemma parseFloat_decimal (negative : bool) (a b rest : string) :
  allDigits a = true -> allDigits b = true -> truthy a = true ->
  match rest with String c _ => isDigit c = false | EmptyString => True end ->
  parseFloat ((if negative then "-" else "") ++ a ++ String "." (b ++ rest))
  = Fin (if negative then - decimalOf a b else decimalOf a b).
Proof.
  intros Ha Hb Hne Hrest. unfold parseFloat.
  assert (Hspan : spanDigits (a ++ String "." (b ++ rest))
                  = (a, String "." (b ++ rest)))
    by (apply spanDigits_digits; auto).
  assert (Hfp : fst (spanDigits (b ++ rest)) = b)
    by (rewrite spanDigits_digits; auto).
  destruct negative; cbn [append].
  - cbn [Ascii.eqb Bool.eqb]. cbn match. rewrite Hspan.
    rewrite Ascii.eqb_refl, Hfp, Hne. reflexivity.
  - destruct a as [|c a']; [discriminate Hne|].
    cbn [append]. cbn [append] in Hspan.
    assert (E : Ascii.eqb c "-" = false).
    { apply Ascii.eqb_neq. intro E. subst.
      cbn in Ha. discriminate Ha. }
    rewrite E, Hspan, Ascii.eqb_refl, Hfp. reflexivity.
Qed.

Lemma append_empty_r (s : string) : (s ++ "")%string = s.
Proof. induction s as [|c r IH]; cbn [append]; auto. now rewrite IH. Qed.

Lemma replaceFirst_all_digits (x y : ascii) (a : string) :
  isDigit x = false -> allDigits a = true -> replaceFirst x y a = a.
Proof.
  intros Hx Ha. rewrite <- (append_empty_r a) at 1.
  rewrite (replaceFirst_digits x y a "" Hx Ha). cbn [replaceFirst].
  apply append_empty_r.
Qed.

Lemma separator_cases (sep : ascii) :
  inString sep ",." = true -> sep = ","%char \/ sep = "."%char.
Proof.
  cbn [inString]. rewrite orb_false_r. intro H.
  apply orb_true_iff in H. destruct H as [H|H]; apply Ascii.eqb_eq in H; auto.
Qed.

Lemma orZero_not_NaN (v : num) : orZero v <> NaN.
Proof.
  destruct v as [q| | |]; cbn; try discriminate.
  destruct (Qeq_bool q 0); discriminate.
Qed.





(** X15.  The amount read from a cell is NaN only when the cell is the
    number NaN itself: a text, whatever it holds, an empty cell and a
    boolean never give NaN. *)
Theorem normalize_number_nan (value : Cell) :
  normalizeNumber value = NaN <-> value = CellNumber NaN.
Proof.
  split.
  - destruct value as [|n|s|b]; cbn [normalizeNumber]; intro H.
    + discriminate H.
    + now subst.
    + now apply orZero_not_NaN in H.
    + discriminate H.
  - intros ->. reflexivity.
Qed.

End ImportedAmounts.

Section ImportedDates.
Import ImportService.

Variable today : string.
Variable excelDate : num -> string.
Variable localeDate : string -> string.

Lemma inString_app (c : ascii) (a b : string) :
  inString c (a ++ b) = inString c a || inString c b.
Proof.
  induction a as [|d r IH]; cbn [append inString]; auto.
  now rewrite IH, orb_assoc.
Qed.

Lemma split_no_sep (sep : ascii) (a : string) :
  inString sep a = false -> split sep a = [a].
Proof.
  induction a as [|c r IH]; cbn [inString split]; auto.
  intro H. apply orb_false_iff in H. destruct H as [Hc Hr].
  rewrite Ascii.eqb_sym, Hc, (IH Hr). reflexivity.
Qed.

Lemma split_app (sep : ascii) (a r : string) :
  inString sep a = false ->
  split sep (a ++ String sep r) = a :: split sep r.
Proof.
  induction a as [|c a IH]; cbn [inString append split].
  - intros _. now rewrite Ascii.eqb_refl.
  - intro H. apply orb_false_iff in H. destruct H as [Hc Ha].
    rewrite Ascii.eqb_sym, Hc, (IH Ha). reflexivity.
Qed.

Lemma split_three (sep : ascii) (a b c : string) :
  inString sep a = false -> inString sep b = false ->
  inString sep c = false ->
  split sep (a ++ String sep (b ++ String sep c)) = [a; b; c].
Proof.
  intros Ha Hb Hc.
  now rewrite (split_app sep a _ Ha), (split_app sep b _ Hb),
    (split_no_sep sep c Hc).
Qed.

Lemma inString_sep_app (sep : ascii) (a r : string) :
  inString sep (a ++ String sep r) = true.
Proof.
  rewrite inString_app. cbn [inString]. rewrite Ascii.eqb_refl.
  cbn [orb]. apply orb_true_r.
Qed.

Lemma padStart2_long (s : string) :
  (2 <= String.length s)%nat -> padStart2 s = s.
Proof.
  unfold padStart2. destruct s as [|c [|d r]]; cbn [String.length]; intro H;
    try lia; reflexivity.
Qed.

(** X16.  The date that the export writes is read back by the import: a
    date of three parts joined by hyphens, the second and the third of two
    characters or more, is written by [formatDate] as the parts in reverse
    order joined by slashes, and [normalizeDate] gives the original date
    for that text. *)
Theorem exported_date_is_read_back (y m d : string) :
  inString "-" y = false -> inString "-" m = false -> inString "-" d = false ->
  inString "/" y = false -> inString "/" m = false -> inString "/" d = false ->
  (2 <= String.length m)%nat -> (2 <= String.length d)%nat ->
  let iso := (y ++ String "-" (m ++ String "-" d))%string in
  formatDate localeDate (Some iso) = (d ++ String "/" (m ++ String "/" y))%string
  /\ normalizeDate today excelDate
       (CellString (formatDate localeDate (Some iso)))
     = iso.
Proof.
  intros Hy Hm Hd Sy Sm Sd Lm Ld iso.
  assert (Hf : formatDate localeDate (Some iso)
               = (d ++ String "/" (m ++ String "/" y))%string).
  { subst iso. unfold formatDate.
    rewrite truthy_append_char. cbn [negb].
    rewrite inString_sep_app, (split_three "-" y m d Hy Hm Hd).
    cbn [append]. reflexivity. }
  split; [exact Hf|].
  rewrite Hf. unfold normalizeDate. cbn [falsyCell].
  rewrite truthy_append_char. cbn [negb].
  rewrite inString_sep_app, (split_three "/" d m y Sd Sm Sy).
  rewrite (padStart2_long m Lm), (padStart2_long d Ld).
  subst iso. cbn [append]. reflexivity.
Qed.

End ImportedDates.

Section ImportedDatesExample.
Import ImportService.

Lemma exported_date_is_read_back_witness :
  formatDate (fun s => s) (Some "2025-03-07") = "07/03/2025"
  /\ normalizeDate "2026-01-01" (fun _ => "1970-01-01")
       (CellString (formatDate (fun s => s) (Some "2025-03-07")))
     = "2025-03-07".
Proof.
  apply (exported_date_is_read_back "2026-01-01" (fun _ => "1970-01-01")
           (fun s => s) "2025" "03" "07");
    first [reflexivity | cbn; lia].
Defined.

End ImportedDatesExample.

(** * Deleting records and the next number *)

Section DeleteAndNumber.
Import Sequencer Store.

Lemma maxSuffix_filter_le (y : N) (ty : InvoiceType) (p : Invoice -> bool)
  (l : list Invoice) :
  (maxSuffix y ty (filter p l) <= maxSuffix y ty l)%N.
Proof.
  induction l as [|i r IH]; cbn [filter maxSuffix]; [lia|].
  destruct (p i); cbn [maxSuffix]; lia.
Qed.

Lemma confirmDelete_as_bulk (invoices : store) (ident : string) :
  confirmDelete invoices ident = confirmBulkDelete invoices [ident].
Proof.
  unfold confirmDelete, confirmBulkDelete. apply filter_ext_eq.
  intro i. cbn [existsb]. now rewrite orb_false_r.
Qed.



End DeleteAndNumber.

(** * Typing the number of a stored record *)

Section LoadByNumber.
Import TaxId NifField NumberField Store.

Lemma unique_pair_same (l : store) (a b : Invoice) :
  uniqueNumbers l -> In a l -> In b l ->
  type a = type b -> number a = number b -> a = b.
Proof.
  unfold uniqueNumbers. induction l as [|x l IH]; cbn [map In]; [tauto|].
  intros Hnd Ha Hb Ht Hn. inversion Hnd as [|p ps Hx Hl]; subst.
  assert (Hmem : forall c, In c l -> type c = type x -> number c = number x ->
                           False).
  { intros c Hc Htc Hnc. apply Hx. apply in_map_iff.
    exists c. split; [now rewrite Htc, Hnc | exact Hc]. }
  destruct Ha as [<-|Ha], Hb as [<-|Hb]; auto.
  - exfalso. now apply (Hmem b Hb).
  - exfalso. now apply (Hmem a Ha).
Qed.

Lemma find_by_number (l : store) (r : Invoice) :
  uniqueNumbers l -> In r l ->
  find (fun inv => String.eqb (number inv) (number r)
                   && InvoiceType_eqb (type inv) (type r)) l
  = Some r.
Proof.
  intros Hu Hr.
  destruct (find _ l) as [f|] eqn:E.
  - apply find_some in E. destruct E as [Hf Hm].
    apply andb_true_iff in Hm. destruct Hm as [Hn Ht].
    apply String.eqb_eq in Hn. apply InvoiceType_eqb_eq in Ht.
    f_equal. now apply (unique_pair_same l f r).
  - exfalso. pose proof (find_none _ _ E r Hr) as H. cbn beta in H.
    now rewrite String.eqb_refl, InvoiceType_eqb_refl in H.
Qed.

Lemma edit_length (e : string) (d : Invoice) (l : store) :
  List.length (map (fun inv => if String.eqb (id inv) e then d else inv) l)
  = List.length l.
Proof. apply length_map. Qed.



End LoadByNumber.

(** * The VAT rate of an imported row *)

Section ImportedRates.
Import ImportService ImportedRow.
Local Open Scope num_scope.

Lemma orElse_not_falsy (v d : num) : falsy d = false -> falsy (orElse v d) = false.
Proof. unfold orElse. destruct (falsy v) eqn:E; auto. Qed.

(** X19.  An imported row never carries a VAT rate of zero: when the cell
    of the rate is absent, empty, zero or NaN the rate is 21, and if the
    cell of the VAT amount is also absent, empty or zero the amount is 21
    per cent of the base.  A rate that is read is kept, and so is an amount
    that is read. *)
Theorem imported_vat_rate_is_never_zero (cells : AmountCells) :
  let a := rowAmounts cells in
  let rate := normalizeNumber (ivaRateCell cells) in
  let amount := normalizeNumber (ivaAmountCell cells) in
  falsy (a_ivaRate a) = false
  /\ (falsy rate = true ->
      a_ivaRate a = Fin 21
      /\ (falsy amount = true ->
          a_ivaAmount a = normalizeNumber (baseCell cells) * Fin (21 / 100)))
  /\ (falsy rate = false -> a_ivaRate a = rate)
  /\ (falsy amount = false -> a_ivaAmount a = amount).
Proof.
  cbv zeta. cbn [rowAmounts a_ivaRate a_ivaAmount].
  split; [now apply orElse_not_falsy|].
  split; [|split].
  - intro Hr. unfold orElse. rewrite Hr. split; [reflexivity|].
    intro Ha. rewrite Ha. reflexivity.
  - intro Hr. unfold orElse. now rewrite Hr.
  - intro Ha. now rewrite Ha.
Qed.

Lemma imported_vat_rate_is_never_zero_witness :
  let cells := mkAmountCells (CellString "1000") (CellString "0 %")
                 CellUndefined (CellString "0,00") CellUndefined
                 CellUndefined in
  a_ivaRate (rowAmounts cells) = Fin 21
  /\ a_ivaAmount (rowAmounts cells)
     = normalizeNumber (CellString "1000") * Fin (21 / 100).
Proof.
  cbv zeta.
  destruct (imported_vat_rate_is_never_zero
              (mkAmountCells (CellString "1000") (CellString "0 %")
                 CellUndefined (CellString "0,00") CellUndefined
                 CellUndefined)) as (_ & H & _).
  destruct (H eq_refl) as [Hrate Hamount].
  split; [exact Hrate | exact (Hamount eq_refl)].
Defined.

End ImportedRates.

(** * The proposal of a number *)

Section SuggestedNumberEffect.
Import Sequencer NifField Suggestion Store.

Lemma startsWith_next (invoices : list Invoice) (y : N) (ty : InvoiceType) :
  startsWith (prefixOf ty ++ "-") (calculateNextNumber invoices y ty) = true.
Proof.
  unfold startsWith, calculateNextNumber, formatNumber.
  destruct ty; cbn [prefixOf append stripPrefix];
    rewrite ?Ascii.eqb_refl; cbn; reflexivity.
Qed.



End SuggestedNumberEffect.
